(** * mysql_fdw: a shallow embedding of mysql_fdw.c

    The foreign-data wrapper is modelled function by function.  C strings
    are [string]s (a sequence of 8-bit characters), [char *] variables
    that may be NULL are [option string], [int] is [Z], the arrays that
    the scan fills in place are lists updated by index, and the calls
    into libmysqlclient and into the PostgreSQL backend act on an
    explicit state. *)

From Stdlib Require Import ZArith String Ascii.
From stdpp Require Import base tactics option list strings gmap pretty.

Local Open Scope string_scope.
Local Open Scope Z_scope.

(** ** C library: characters, [atoi], [snprintf] *)

Module CLib.

Definition byte_of (c : ascii) : Z := Z.of_N (N_of_ascii c).

Definition isspace (c : ascii) : bool :=
  let n := byte_of c in (n =? 32) || ((9 <=? n) && (n <=? 13)).

Definition isdigit (c : ascii) : bool :=
  let n := byte_of c in (48 <=? n) && (n <=? 57).

Fixpoint skip_space (s : string) : string :=
  match s with
  | String c r => if isspace c then skip_space r else s
  | EmptyString => s
  end.

(** The decimal digits at the head of [s], accumulated onto [acc]. *)
Fixpoint digits (s : string) (acc : Z) : Z :=
  match s with
  | String c r => if isdigit c then digits r (10 * acc + (byte_of c - 48)) else acc
  | EmptyString => acc
  end.

(** White space, an optional sign, then the digits. *)
Definition strtol10 (s : string) : Z :=
  match skip_space s with
  | String c r =>
      if Ascii.eqb c "-" then - digits r 0
      else if Ascii.eqb c "+" then digits r 0
      else digits (String c r) 0
  | EmptyString => 0
  end.

Definition LONG_MAX : Z := 2 ^ 63 - 1.
Definition LONG_MIN : Z := - 2 ^ 63.

Definition clamp_long (z : Z) : Z := Z.max LONG_MIN (Z.min LONG_MAX z).

(** Conversion of a [long] to [int]: reduction modulo 2^32 into the
    signed range. *)
Definition to_int (z : Z) : Z := (z + 2 ^ 31) mod 2 ^ 32 - 2 ^ 31.

(** [atoi]: [(int) strtol (s, NULL, 10)].  Within the range of [int] this
    is the decimal value of the leading number, 0 when there is none; the
    standard leaves overflow undefined and the clamp and wrap written
    here are what glibc computes. *)
Definition atoi (s : string) : Z := to_int (clamp_long (strtol10 s)).

(** The characters a [char *] designates: those before the first NUL. *)
Fixpoint c_str (s : string) : string :=
  match s with
  | String c r => if (byte_of c =? 0) then EmptyString else String c (c_str r)
  | EmptyString => EmptyString
  end.

Fixpoint string_take (n : nat) (s : string) : string :=
  match n, s with
  | S n', String c r => String c (string_take n' r)
  | _, _ => EmptyString
  end.

(** [snprintf (buf, len, ...)] keeps at most [len - 1] characters of the
    formatted text [s]. *)
Definition snprintf (len : nat) (s : string) : string := string_take (len - 1) s.

Definition hex_digit (n : Z) : ascii :=
  ascii_of_N (Z.to_N (if n <? 10 then 48 + n else 87 + n)).

(** [sprintf (p, "0x%02x", (unsigned char) c)] *)
Definition hex_byte (c : ascii) : string :=
  "0x" +:+ String (hex_digit (byte_of c / 16)) (String (hex_digit (byte_of c mod 16)) EmptyString).

(** A [char *] tested as a condition: true when it is not NULL. *)
Definition is_set (p : option string) : bool :=
  match p with Some _ => true | None => false end.

(** The text of a double quote, for messages that contain one. *)
Definition dquote : string := String (ascii_of_nat 34) EmptyString.

End CLib.

Export CLib.

(** ** Errors and outcomes *)

Inductive sqlerrcode :=
| ERRCODE_FDW_INVALID_OPTION_NAME
| ERRCODE_SYNTAX_ERROR
| ERRCODE_FDW_OUT_OF_MEMORY
| ERRCODE_FDW_UNABLE_TO_ESTABLISH_CONNECTION
| ERRCODE_FDW_UNABLE_TO_CREATE_EXECUTION
| ERRCODE_CHARACTER_NOT_IN_REPERTOIRE
| ERRCODE_INVALID_TEXT_REPRESENTATION
| ERRCODE_SUCCESSFUL_COMPLETION.

Record ErrorData := mkError {
  err_code : sqlerrcode;
  err_msg : string;
  err_hint : option string
}.

(** What C leaves undefined and the code does not guard against. *)
Inductive fault := OutOfBounds | NullDeref | UseAfterClose.

(** The result of running a piece of the wrapper: it returns, it leaves
    through [ereport (ERROR, ...)], or it steps outside what C defines. *)
Inductive outcome (A : Type) :=
| Ok (a : A)
| Raise (e : ErrorData)
| Fault (f : fault).

Arguments Ok {A} a.
Arguments Raise {A} e.
Arguments Fault {A} f.

Global Instance outcome_ret : MRet outcome := fun A a => Ok a.

Global Instance outcome_bind : MBind outcome := fun A B k m =>
  match m with
  | Ok a => k a
  | Raise e => Raise e
  | Fault f => Fault f
  end.

(** ** Options: the table of valid options, the validator, the resolver *)

Module Options.

Definition Oid := Z.
Definition InvalidOid : Oid := 0.
Definition ForeignDataWrapperRelationId : Oid := 2328.
Definition ForeignServerRelationId : Oid := 1417.
Definition UserMappingRelationId : Oid := 1418.
Definition ForeignTableRelationId : Oid := 3118.

Record DefElem := mkDef { defname : string; defarg : string }.

Definition defGetString (def : DefElem) : string := defarg def.

Record MySQLFdwOption := mkOpt { optname : string; optcontext : Oid }.

(** The entries before the sentinel, in the order of the source. *)
Definition valid_options : list MySQLFdwOption :=
  [ mkOpt "address" ForeignServerRelationId;
    mkOpt "port" ForeignServerRelationId;
    mkOpt "username" UserMappingRelationId;
    mkOpt "password" UserMappingRelationId;
    mkOpt "database" ForeignTableRelationId;
    mkOpt "query" ForeignTableRelationId;
    mkOpt "table" ForeignTableRelationId ].

Definition mysqlIsValidOption (option : string) (context : Oid) : bool :=
  existsb (fun opt => (context =? optcontext opt) && (optname opt =? option)%string)
          valid_options.

(** The seven variables both the validator and the callbacks declare:
    [char *svr_address = NULL; int svr_port = 0; ...]. *)
Record svr := mkSvr {
  svr_address : option string;
  svr_port : Z;
  svr_username : option string;
  svr_password : option string;
  svr_database : option string;
  svr_query : option string;
  svr_table : option string
}.

Definition svr_init : svr := mkSvr None 0 None None None None None.

Definition set_address v (s : svr) := mkSvr v (svr_port s) (svr_username s) (svr_password s) (svr_database s) (svr_query s) (svr_table s).
Definition set_port v (s : svr) := mkSvr (svr_address s) v (svr_username s) (svr_password s) (svr_database s) (svr_query s) (svr_table s).
Definition set_username v (s : svr) := mkSvr (svr_address s) (svr_port s) v (svr_password s) (svr_database s) (svr_query s) (svr_table s).
Definition set_password v (s : svr) := mkSvr (svr_address s) (svr_port s) (svr_username s) v (svr_database s) (svr_query s) (svr_table s).
Definition set_database v (s : svr) := mkSvr (svr_address s) (svr_port s) (svr_username s) (svr_password s) v (svr_query s) (svr_table s).
Definition set_query v (s : svr) := mkSvr (svr_address s) (svr_port s) (svr_username s) (svr_password s) (svr_database s) v (svr_table s).
Definition set_table v (s : svr) := mkSvr (svr_address s) (svr_port s) (svr_username s) (svr_password s) (svr_database s) (svr_query s) v.

(** The hint of the invalid-option error: the names valid for [catalog],
    separated by commas. *)
Definition valid_names (catalog : Oid) : string :=
  fold_left (fun buf opt =>
               if catalog =? optcontext opt
               then buf +:+ (if (0 <? String.length buf)%nat then ", " else "") +:+ optname opt
               else buf)
            valid_options "".

Definition invalid_option (def : DefElem) (catalog : Oid) : ErrorData :=
  let buf := valid_names catalog in
  mkError ERRCODE_FDW_INVALID_OPTION_NAME
          ("invalid option " +:+ dquote +:+ defname def +:+ dquote)
          (Some ("Valid options in this context are: "
                 +:+ (if (0 <? String.length buf)%nat then buf else "<none>"))).

Definition redundant (name : string) (def : DefElem) : ErrorData :=
  mkError ERRCODE_SYNTAX_ERROR
          ("conflicting or redundant options: " +:+ name +:+ " (" +:+ defGetString def +:+ ")")
          None.

Definition redundant_password : ErrorData :=
  mkError ERRCODE_SYNTAX_ERROR "conflicting or redundant options: password" None.

Definition query_with_table : ErrorData :=
  mkError ERRCODE_SYNTAX_ERROR "conflicting options: query cannot be used with table" None.

Definition table_with_query : ErrorData :=
  mkError ERRCODE_SYNTAX_ERROR "conflicting options: table cannot be used with query" None.

(** The body of the validator's [foreach]: the check of the name, then the
    three [if] chains of the source, in their order. *)
Definition validate_option (catalog : Oid) (s : svr) (def : DefElem) : outcome svr :=
  if negb (mysqlIsValidOption (defname def) catalog) then Raise (invalid_option def catalog)
  else
    s ← (if (defname def =? "address")%string then
               if is_set (svr_address s) then Raise (redundant "address" def)
               else Ok (set_address (Some (defGetString def)) s)
             else if (defname def =? "port")%string then
               if negb (svr_port s =? 0) then Raise (redundant "port" def)
               else Ok (set_port (atoi (defGetString def)) s)
             else Ok s);
    s ← (if (defname def =? "username")%string then
               if is_set (svr_username s) then Raise (redundant "username" def)
               else Ok (set_username (Some (defGetString def)) s)
             else Ok s);
    if (defname def =? "password")%string then
      if is_set (svr_password s) then Raise redundant_password
      else Ok (set_password (Some (defGetString def)) s)
    else if (defname def =? "database")%string then
      if is_set (svr_database s) then Raise (redundant "database" def)
      else Ok (set_database (Some (defGetString def)) s)
    else if (defname def =? "query")%string then
      if is_set (svr_table s) then Raise query_with_table
      else if is_set (svr_query s) then Raise (redundant "query" def)
      else Ok (set_query (Some (defGetString def)) s)
    else if (defname def =? "table")%string then
      if is_set (svr_query s) then Raise table_with_query
      else if is_set (svr_table s) then Raise (redundant "table" def)
      else Ok (set_table (Some (defGetString def)) s)
    else Ok s.

Fixpoint validate_options (catalog : Oid) (s : svr) (options_list : list DefElem) : outcome svr :=
  match options_list with
  | [] => Ok s
  | def :: rest => s ← validate_option catalog s def; validate_options catalog s rest
  end.

(** [mysql_fdw_validator (options_list, catalog)]: returns, or raises. *)
Definition mysql_fdw_validator (options_list : list DefElem) (catalog : Oid) : outcome unit :=
  _ ← validate_options catalog svr_init options_list; Ok tt.

(** The options the catalogs hold for one foreign table: those of the
    table, of its server and of the user mapping. *)
Record Catalog := mkCatalog {
  f_table : list DefElem;
  f_server : list DefElem;
  f_mapping : list DefElem
}.

(** The body of the resolver's [foreach]: seven independent [if]s. *)
Definition get_option (s : svr) (def : DefElem) : svr :=
  let s := if (defname def =? "address")%string then set_address (Some (defGetString def)) s else s in
  let s := if (defname def =? "port")%string then set_port (atoi (defGetString def)) s else s in
  let s := if (defname def =? "username")%string then set_username (Some (defGetString def)) s else s in
  let s := if (defname def =? "password")%string then set_password (Some (defGetString def)) s else s in
  let s := if (defname def =? "database")%string then set_database (Some (defGetString def)) s else s in
  let s := if (defname def =? "query")%string then set_query (Some (defGetString def)) s else s in
  if (defname def =? "table")%string then set_table (Some (defGetString def)) s else s.

Definition table_or_query_required : ErrorData :=
  mkError ERRCODE_SYNTAX_ERROR "either a table or a query must be specified" None.

(** [mysqlGetOptions]: every caller passes the seven variables as they
    were declared, NULL and 0, so they start from [svr_init]. *)
Definition mysqlGetOptions (cat : Catalog) : outcome svr :=
  let options := ([] ++ f_table cat)%list in
  let options := (options ++ f_server cat)%list in
  let options := (options ++ f_mapping cat)%list in
  let s := fold_left get_option options svr_init in
  let s := if is_set (svr_address s) then s else set_address (Some "127.0.0.1") s in
  let s := if svr_port s =? 0 then set_port 3306 s else s in
  if negb (is_set (svr_table s)) && negb (is_set (svr_query s))
  then Raise table_or_query_required
  else Ok s.

End Options.

Export Options.

(** ** The backend: libmysqlclient, the executor's node, diagnostics *)

Module Backend.

(** A connection object, named by its address. *)
Abbreviation MYSQL := nat.

(** A fetched row: every field is NULL or its bytes; [mysql_fetch_lengths]
    gives the number of bytes of each. *)
Abbreviation MYSQL_ROW := (list (option string)).

Record MYSQL_RES := mkRes {
  res_fields : nat;
  res_rows : list MYSQL_ROW;
  res_cursor : nat
}.

Inductive Datum :=
| DatumInt (z : Z)
| DatumText (s : string).

(** [(Datum) 0] *)
Definition Datum0 : Datum := DatumInt 0.

Definition TYPCATEGORY_STRING : ascii := "S"%char.

(** One column of the tuple descriptor, with what [AttInMetadata] keeps
    for it: the input function of its type and the type modifier. *)
Record Attr := mkAttr {
  attisdropped : bool;
  typcategory : ascii;
  atttypmod : Z;
  attinfunc : string -> Z -> ErrorData + Datum
}.

Record TupleTableSlot := mkSlot {
  tts_isempty : bool;
  tts_values : list (option Datum);
  tts_isnull : list (option bool)
}.

Record MySQLFdwExecutionState := mkState {
  conn : option MYSQL;
  result : option MYSQL_RES;
  query : option string;
  num_fields : nat
}.

Record ForeignScanState := mkNode {
  rd_att : list Attr;
  ss_ScanTupleSlot : TupleTableSlot;
  fdw_state : option MySQLFdwExecutionState
}.

Inductive elevel := NOTICE | WARNING.

(** What the process holds: the connection objects obtained from
    [mysql_init] and not closed, each with the statement it executed
    last; the statements passed to [mysql_query] and the diagnostics
    reported, latest first; the scan node. *)
Record Backend := mkBackend {
  conns : gmap MYSQL (option string);
  next_conn : MYSQL;
  sent : list string;
  log : list (elevel * ErrorData);
  node : ForeignScanState
}.

(** What the surroundings answer: the allocator and the remote server,
    and the encoding of the host database. *)
Record Env := mkEnv {
  env_alloc : bool;
  env_accepts : svr -> bool;
  env_executes : string -> bool;
  env_result : string -> option (nat * list MYSQL_ROW);
  env_error : string;
  GetDatabaseEncodingName : string;
  pg_verifymbstr : string -> nat -> bool;
  pg_encoding_mblen : string -> nat
}.

(** State passing with the three outcomes; the state survives an error,
    as memory does across a [longjmp]. *)
Definition M (A : Type) : Type := Backend -> outcome A * Backend.

Global Instance M_ret : MRet M := fun A a b => (Ok a, b).

Global Instance M_bind : MBind M := fun A B k m b =>
  match m b with
  | (Ok a, b') => k a b'
  | (Raise e, b') => (Raise e, b')
  | (Fault f, b') => (Fault f, b')
  end.

Definition raise {A} (e : ErrorData) : M A := fun b => (Raise e, b).
Definition fault {A} (f : fault) : M A := fun b => (Fault f, b).
Definition lift {A} (o : outcome A) : M A := fun b => (o, b).
Definition get : M Backend := fun b => (Ok b, b).
Definition put (b : Backend) : M unit := fun _ => (Ok tt, b).

(** A pointer tested as a condition. *)
Definition is_set_ptr {A} (p : option A) : bool :=
  match p with Some _ => true | None => false end.

(** Reading through a pointer that may be NULL. *)
Definition deref {A} (p : option A) : M A :=
  match p with Some a => mret a | None => fault NullDeref end.

Definition set_conns c (b : Backend) := mkBackend c (next_conn b) (sent b) (log b) (node b).
Definition set_sent q (b : Backend) := mkBackend (conns b) (next_conn b) q (log b) (node b).
Definition set_log l (b : Backend) := mkBackend (conns b) (next_conn b) (sent b) l (node b).
Definition set_node n (b : Backend) := mkBackend (conns b) (next_conn b) (sent b) (log b) n.

(** [ereport] below ERROR, and [elog (NOTICE, ...)]. *)
Definition report (l : elevel) (e : ErrorData) : M unit :=
  fun b => (Ok tt, set_log ((l, e) :: log b) b).

(** *** libmysqlclient *)

Definition mysql_init (env : Env) : M (option MYSQL) := fun b =>
  if env_alloc env
  then (Ok (Some (next_conn b)),
        mkBackend (<[next_conn b := None]> (conns b)) (S (next_conn b)) (sent b) (log b) (node b))
  else (Ok None, b).

(** A call on a connection object: NULL and a closed object are faults. *)
Definition on_conn {A} (c : option MYSQL) (k : MYSQL -> option string -> M A) : M A :=
  h ← deref c;
  b ← get;
  match conns b !! h with
  | Some last => k h last
  | None => fault UseAfterClose
  end.

Definition mysql_options (c : option MYSQL) (charset : string) : M unit :=
  on_conn c (fun _ _ => mret tt).

Definition mysql_real_connect (env : Env) (c : option MYSQL) (s : svr) : M bool :=
  on_conn c (fun _ _ => mret (env_accepts env s)).

(** Returns 0 when the statement was executed. *)
Definition mysql_query (env : Env) (c : option MYSQL) (q : option string) : M Z :=
  on_conn c (fun h _ =>
    q ← deref q;
    b ← get;
    if env_executes env q
    then put (set_sent (q :: sent b) (set_conns (<[h := Some q]> (conns b)) b));; mret 0
    else put (set_sent (q :: sent b) b);; mret 1).

Definition mysql_store_result (env : Env) (c : option MYSQL) : M (option MYSQL_RES) :=
  on_conn c (fun _ last =>
    match last with
    | Some q =>
        match env_result env q with
        | Some (n, rows) => mret (Some (mkRes n rows 0))
        | None => mret None
        end
    | None => mret None
    end).

Definition mysql_error (env : Env) (c : option MYSQL) : M string :=
  on_conn c (fun _ _ => mret (env_error env)).

(** [mysql_close (NULL)] does nothing; closing frees the object. *)
Definition mysql_close (c : option MYSQL) : M unit :=
  match c with
  | None => mret tt
  | Some _ => on_conn c (fun h _ => b ← get; put (set_conns (delete h (conns b)) b))
  end.

Definition mysql_num_fields (r : MYSQL_RES) : nat := res_fields r.

(** The row under the cursor, and the result with the cursor moved past
    it; NULL at the end. *)
Definition mysql_fetch_row (r : MYSQL_RES) : option MYSQL_ROW * MYSQL_RES :=
  match res_rows r !! res_cursor r with
  | Some row => (Some row, mkRes (res_fields r) (res_rows r) (S (res_cursor r)))
  | None => (None, r)
  end.

Definition mysql_fetch_lengths (row : MYSQL_ROW) : list nat :=
  (fun f => match f with Some bytes => String.length bytes | None => 0%nat end) <$> row.

Definition mysql_data_seek (r : MYSQL_RES) (offset : nat) : MYSQL_RES :=
  mkRes (res_fields r) (res_rows r) offset.

Definition mysql_free_result (r : MYSQL_RES) : M unit := mret tt.

End Backend.

Export Backend.

(** ** Planning: the cost probe *)

(** The arithmetic of [double] the planner uses: conversion of an integer
    constant, addition, and [atof]. *)
Class Double := {
  double : Type;
  of_int : Z -> double;
  dadd : double -> double -> double;
  atof : string -> double
}.

Module Plan.

Section WithDouble.
Context `{Double}.

(** The fields of [FdwPlan] and of [baserel] the function assigns. *)
Record FdwPlan := mkPlan {
  startup_cost : double;
  total_cost : double;
  baserel_rows : double;
  baserel_tuples : double
}.

Definition connect_failed (err : string) : ErrorData :=
  mkError ERRCODE_FDW_UNABLE_TO_ESTABLISH_CONNECTION ("failed to connect to MySQL: " +:+ err) None.

Definition init_failed : ErrorData :=
  mkError ERRCODE_FDW_OUT_OF_MEMORY "failed to initialise the MySQL connection object" None.

Definition query_failed (err : string) : ErrorData :=
  mkError ERRCODE_FDW_UNABLE_TO_CREATE_EXECUTION ("failed to execute the MySQL query: " +:+ err) None.

(** [strcmp (svr_address, "127.0.0.1") == 0 || strcmp (svr_address, "localhost") == 0] *)
Definition is_local (address : string) : bool :=
  (address =? "127.0.0.1")%string || (address =? "localhost")%string.

(** The block under "Build the query" of [mysqlPlanForeignScan]. *)
Definition explain_query (s : svr) : M string :=
  match svr_query s with
  | Some q =>
      let len := (String.length q + 9)%nat in
      mret (snprintf len ("EXPLAIN " +:+ q))
  | None =>
      t ← deref (svr_table s);
      let len := (String.length t + 23)%nat in
      mret (snprintf len ("EXPLAIN SELECT * FROM " +:+ t))
  end.

(** [while ((row = mysql_fetch_row (result))) rows += atof (row[8]);]
    over the rows from the cursor on.  Nothing guards [row[8]]: a row of
    fewer than nine fields is read out of bounds, a NULL field is
    dereferenced by [atof]. *)
Fixpoint sum_rows (remaining : list MYSQL_ROW) (rows : double) : outcome double :=
  match remaining with
  | [] => Ok rows
  | row :: rest =>
      match row !! 8%nat with
      | Some (Some f) => sum_rows rest (dadd rows (atof (c_str f)))
      | Some None => Fault NullDeref
      | None => Fault OutOfBounds
      end
  end.

Definition mysqlPlanForeignScan (env : Env) (cat : Catalog) : M FdwPlan :=
  s ← lift (mysqlGetOptions cat);
  address ← deref (svr_address s);
  let startup_cost := if is_local address then of_int 10 else of_int 25 in
  conn ← mysql_init env;
  if negb (is_set_ptr conn) then raise init_failed
  else
    mysql_options conn (GetDatabaseEncodingName env);;
    connected ← mysql_real_connect env conn s;
    if negb connected then
      err ← mysql_error env conn;
      raise (connect_failed err)
    else
      query ← explain_query s;
      rc ← mysql_query env conn (Some query);
      if negb (rc =? 0) then
        err ← mysql_error env conn;
        mysql_close conn;;
        raise (query_failed err)
      else
        result ← mysql_store_result env conn;
        match result with
        | None =>
            err ← mysql_error env conn;
            mysql_close conn;;
            raise (query_failed err)
        | Some result =>
            rows ← lift (sum_rows (drop (res_cursor result) (res_rows result)) (of_int 0));
            mysql_free_result result;;
            mysql_close conn;;
            mret (mkPlan startup_cost (dadd rows startup_cost) rows rows)
        end.

End WithDouble.

End Plan.

Export Plan.

(** ** The scan: begin, iterate, rescan, end *)

Module Scan.

Definition set_fdw_state (f : option MySQLFdwExecutionState) : M unit :=
  b ← get;
  put (set_node (mkNode (rd_att (node b)) (ss_ScanTupleSlot (node b)) f) b).

Definition set_slot (t : TupleTableSlot) : M unit :=
  b ← get;
  put (set_node (mkNode (rd_att (node b)) t (fdw_state (node b))) b).

(** The state [node->fdw_state] points to. *)
Definition get_festate : M MySQLFdwExecutionState :=
  b ← get;
  deref (fdw_state (node b)).

Definition set_result r (f : MySQLFdwExecutionState) := mkState (conn f) r (query f) (num_fields f).
Definition set_conn c (f : MySQLFdwExecutionState) := mkState c (result f) (query f) (num_fields f).
Definition set_query_buf q (f : MySQLFdwExecutionState) := mkState (conn f) (result f) q (num_fields f).
Definition set_num_fields n (f : MySQLFdwExecutionState) := mkState (conn f) (result f) (query f) n.

(** An assignment to a field of [*festate]. *)
Definition update_festate (upd : MySQLFdwExecutionState -> MySQLFdwExecutionState) : M unit :=
  f ← get_festate;
  set_fdw_state (Some (upd f)).

(** The block under "Build the query" of [mysqlBeginForeignScan]. *)
Definition scan_query (s : svr) : M string :=
  match svr_query s with
  | Some q => mret q
  | None =>
      t ← deref (svr_table s);
      let len := (String.length t + 15)%nat in
      mret (snprintf len ("SELECT * FROM " +:+ t))
  end.

Definition mysqlBeginForeignScan (env : Env) (cat : Catalog) : M unit :=
  s ← lift (mysqlGetOptions cat);
  conn ← mysql_init env;
  if negb (is_set_ptr conn) then raise init_failed
  else
    mysql_options conn (GetDatabaseEncodingName env);;
    connected ← mysql_real_connect env conn s;
    if negb connected then
      err ← mysql_error env conn;
      raise (connect_failed err)
    else
      query ← scan_query s;
      set_fdw_state (Some (mkState conn None (Some query) 0)).

(** The dump [mysqlVerifymbstr] prepares in [buf]: the first [jlimit]
    bytes, each as [0x%02x], a space between two. *)
Fixpoint hex_dump (bytes : list ascii) : string :=
  match bytes with
  | [] => ""
  | [c] => hex_byte c
  | c :: rest => hex_byte c +:+ " " +:+ hex_dump rest
  end.

Definition invalid_byte_sequence (encoding text : string) : ErrorData :=
  mkError ERRCODE_CHARACTER_NOT_IN_REPERTOIRE
          ("invalid byte sequence for encoding " +:+ dquote +:+ encoding +:+ dquote +:+ ": " +:+ text)
          None.

(** [mysqlVerifymbstr (mbstr, len)].  The dump is built in [buf], and the
    message is given [mbstr], as in the source. *)
Definition mysqlVerifymbstr (env : Env) (mbstr : string) (len : nat) : M bool :=
  if negb (pg_verifymbstr env mbstr len) then
    let l := pg_encoding_mblen env mbstr in
    let jlimit := Nat.min l len in
    let jlimit := Nat.min jlimit 8 in
    let buf := hex_dump (take jlimit (list_ascii_of_string mbstr)) in
    report WARNING (invalid_byte_sequence (GetDatabaseEncodingName env) (c_str mbstr));;
    mret false
  else mret true.

(** [a[y] = v] on an array of [palloc]ed cells: [None] is a cell not yet
    written, and a store past the end is out of bounds. *)
Definition store {A} (a : list (option A)) (y : nat) (v : A) : M (list (option A)) :=
  if (y <? length a)%nat then mret (<[y := Some v]> a) else fault OutOfBounds.

Definition InputFunctionCall (a : Attr) (str : string) : M Datum :=
  match attinfunc a str (atttypmod a) with
  | inl e => raise e
  | inr d => mret d
  end.

Definition attisdropped_notice (y : nat) : ErrorData :=
  mkError ERRCODE_SUCCESSFUL_COMPLETION ("attisdropped[" +:+ pretty y +:+ "]") None.

(** [while (meta->tupdesc->attrs[y]->attisdropped) { ... y++; }], on the
    descriptor from position [y] on: [attrs[y]] is the head of
    [attrs_y], and past the last column the read is out of bounds. *)
Fixpoint while_dropped (attrs_y : list Attr) (y : nat)
    (dvalues : list (option Datum)) (nulls : list (option bool))
    : M (nat * list (option Datum) * list (option bool)) :=
  match attrs_y with
  | [] => fault OutOfBounds
  | a :: rest =>
      if attisdropped a then
        report NOTICE (attisdropped_notice y);;
        dvalues ← store dvalues y Datum0;
        nulls ← store nulls y true;
        while_dropped rest (S y) dvalues nulls
      else mret (y, dvalues, nulls)
  end.

(** The body of the [for] loop over the fields of the row. *)
Definition convert_field (env : Env) (attrs : list Attr) (row : MYSQL_ROW) (lengths : list nat)
    (x y : nat) (dvalues : list (option Datum)) (nulls : list (option bool))
    : M (nat * list (option Datum) * list (option bool)) :=
  '(y, dvalues, nulls) ← while_dropped (drop y attrs) y dvalues nulls;
  field ← lift (match row !! x with Some f => Ok f | None => Fault OutOfBounds end);
  match field with
  | None =>
      dvalues ← store dvalues y Datum0;
      nulls ← store nulls y true;
      mret (y, dvalues, nulls)
  | Some bytes =>
      len ← lift (match lengths !! x with Some n => Ok n | None => Fault OutOfBounds end);
      a ← lift (match attrs !! y with Some a => Ok a | None => Fault OutOfBounds end);
      if (len =? 0)%nat then
        nulls ← store nulls y false;
        d ← InputFunctionCall a "";
        dvalues ← store dvalues y d;
        mret (y, dvalues, nulls)
      else
        encoding_error ←
          (if Ascii.eqb (typcategory a) TYPCATEGORY_STRING
           then ok ← mysqlVerifymbstr env bytes len; mret (negb ok)
           else mret false);
        if (encoding_error : bool) then
          nulls ← store nulls y true;
          dvalues ← store dvalues y Datum0;
          mret (y, dvalues, nulls)
        else
          nulls ← store nulls y false;
          d ← InputFunctionCall a (c_str bytes);
          dvalues ← store dvalues y d;
          mret (y, dvalues, nulls)
  end.

(** [for (x = y = 0; x < festate->num_fields; x++, y++)]: [todo] is
    [num_fields - x], the iterations that remain. *)
Fixpoint for_fields (env : Env) (attrs : list Attr) (row : MYSQL_ROW) (lengths : list nat)
    (todo x y : nat) (dvalues : list (option Datum)) (nulls : list (option bool))
    : M (list (option Datum) * list (option bool)) :=
  match todo with
  | O => mret (dvalues, nulls)
  | S todo' =>
      '(y, dvalues, nulls) ← convert_field env attrs row lengths x y dvalues nulls;
      for_fields env attrs row lengths todo' (S x) (S y) dvalues nulls
  end.

(** The block under "Execute the query, if required". *)
Definition execute_query (env : Env) : M unit :=
  festate ← get_festate;
  if negb (is_set_ptr (result festate)) then
    rc ← mysql_query env (conn festate) (query festate);
    if negb (rc =? 0) then
      err ← mysql_error env (conn festate);
      mysql_close (conn festate);;
      raise (query_failed err)
    else
      r ← mysql_store_result env (conn festate);
      update_festate (set_result r);;
      match r with
      | None =>
          err ← mysql_error env (conn festate);
          mysql_close (conn festate);;
          raise (query_failed err)
      | Some r => update_festate (set_num_fields (mysql_num_fields r))
      end
  else mret tt.

Definition ExecClearTuple : M unit :=
  b ← get;
  let slot := ss_ScanTupleSlot (node b) in
  set_slot (mkSlot true (tts_values slot) (tts_isnull slot)).

(** [slot->tts_isnull = nulls; slot->tts_values = dvalues;
    ExecStoreVirtualTuple (slot);] *)
Definition store_virtual_tuple (dvalues : list (option Datum)) (nulls : list (option bool)) : M unit :=
  set_slot (mkSlot false dvalues nulls).

(** The block under "Get the next tuple". *)
Definition next_tuple (env : Env) (meta : list Attr) : M unit :=
  festate ← get_festate;
  r ← deref (result festate);
  match mysql_fetch_row r with
  | (Some row, r') =>
      update_festate (set_result (Some r'));;
      let nulls := replicate (num_fields festate) None in
      let dvalues := replicate (num_fields festate) None in
      let lengths := mysql_fetch_lengths row in
      '(dvalues, nulls) ← for_fields env meta row lengths (num_fields festate) 0 0 dvalues nulls;
      store_virtual_tuple dvalues nulls
  | (None, _) => mret tt
  end.

Definition mysqlIterateForeignScan (env : Env) : M TupleTableSlot :=
  b ← get;
  let meta := rd_att (node b) in
  execute_query env;;
  ExecClearTuple;;
  next_tuple env meta;;
  b ← get;
  mret (ss_ScanTupleSlot (node b)).

Definition mysqlEndForeignScan : M unit :=
  festate ← get_festate;
  match result festate with
  | Some r => mysql_free_result r;; update_festate (set_result None)
  | None => mret tt
  end;;
  (if is_set_ptr (conn festate)
   then mysql_close (conn festate);; update_festate (set_conn None)
   else mret tt);;
  (if is_set_ptr (query festate)
   then update_festate (set_query_buf None)
   else mret tt).

Definition mysqlReScanForeignScan : M unit :=
  festate ← get_festate;
  match result festate with
  | Some r => update_festate (set_result (Some (mysql_data_seek r 0)))
  | None => mret tt
  end.

End Scan.

Export Scan.

(** ** Notions the statements are phrased with *)

Module Notions.

(** The value of the last entry of [opts] named [name], if there is one. *)
Fixpoint supplied (name : string) (opts : list DefElem) : option string :=
  match opts with
  | [] => None
  | d :: rest =>
      match supplied name rest with
      | Some v => Some v
      | None => if (defname d =? name)%string then Some (defarg d) else None
      end
  end.

Definition all_options (cat : Catalog) : list DefElem :=
  f_table cat ++ f_server cat ++ f_mapping cat.

Definition named (name : string) (d : DefElem) : Prop := defname d = name.

Global Instance named_dec name d : Decision (named name d).
Proof. unfold named. apply _. Defined.

(** The catalog with every entry named [name] taken out. *)
Definition without (name : string) (cat : Catalog) : Catalog :=
  mkCatalog (filter (fun d => ¬ named name d) (f_table cat))
            (filter (fun d => ¬ named name d) (f_server cat))
            (filter (fun d => ¬ named name d) (f_mapping cat)).

(** The resolver, as a function of the concatenated list. *)
Definition resolve (opts : list DefElem) : outcome svr :=
  let s := fold_left get_option opts svr_init in
  let s := if is_set (svr_address s) then s else set_address (Some "127.0.0.1") s in
  let s := if svr_port s =? 0 then set_port 3306 s else s in
  if negb (is_set (svr_table s)) && negb (is_set (svr_query s))
  then Raise table_or_query_required
  else Ok s.

(** Whether the validator's variable for the option [name] is set; the
    port has no such mark of its own, only its value. *)
Definition seen (name : string) (s : svr) : bool :=
  if (name =? "address")%string then is_set (svr_address s)
  else if (name =? "username")%string then is_set (svr_username s)
  else if (name =? "password")%string then is_set (svr_password s)
  else if (name =? "database")%string then is_set (svr_database s)
  else if (name =? "query")%string then is_set (svr_query s)
  else if (name =? "table")%string then is_set (svr_table s)
  else false.

(** The query a scan runs, as the options give it. *)
Definition effective_query (s : svr) : option string :=
  match svr_query s, svr_table s with
  | Some q, _ => Some q
  | None, Some t => Some ("SELECT * FROM " +:+ t)
  | None, None => None
  end.

Section WithDouble.
Context `{Double}.

(** A row of the probe that has a ninth field, and not NULL. *)
Definition has_rows_field (row : MYSQL_ROW) : Prop :=
  ∃ f, row !! 8%nat = Some (Some f).

(** The row-estimate column of the rows that have one. *)
Definition rows_column (rows : list MYSQL_ROW) : list string :=
  omap (fun row : MYSQL_ROW => mjoin (row !! 8%nat)) rows.

(** The sum of the column, from 0, in the order of the rows. *)
Definition row_estimate (rows : list MYSQL_ROW) : double :=
  fold_left (fun acc f => dadd acc (atof (c_str f))) (rows_column rows) (of_int 0).

End WithDouble.

(** The connection the scan state points to, if any, is one the client
    library still holds. *)
Definition session_invariant (b : Backend) : Prop :=
  ∀ f h, fdw_state (node b) = Some f -> conn f = Some h -> is_Some (conns b !! h).

(** The state with the slot marked empty, as [ExecClearTuple] leaves it. *)
Definition clear_slot (b : Backend) : Backend :=
  set_node (mkNode (rd_att (node b))
                   (mkSlot true (tts_values (ss_ScanTupleSlot (node b)))
                                (tts_isnull (ss_ScanTupleSlot (node b))))
                   (fdw_state (node b))) b.

(** A computation that touches nothing of the state but the diagnostics. *)
Definition log_only {A} (m : M A) : Prop := ∀ b, ∃ l, snd (m b) = set_log l b.

End Notions.

Export Notions.

(** ** Explain: the extra output for EXPLAIN *)

Module Explain.

Inductive ExplainValue :=
| ExplainLong (value : Z)
| ExplainText (value : string).

(** Of [ExplainState]: whether costs are asked for, and the properties
    printed so far, in their order. *)
Record ExplainState := mkExplain {
  costs : bool;
  properties : list (string * ExplainValue)
}.

Definition ExplainPropertyLong (qlabel : string) (value : Z) (es : ExplainState) : ExplainState :=
  mkExplain (costs es) (properties es ++ [(qlabel, ExplainLong value)])%list.

Definition ExplainPropertyText (qlabel : string) (value : string) (es : ExplainState) : ExplainState :=
  mkExplain (costs es) (properties es ++ [(qlabel, ExplainText value)])%list.

(** [mysqlExplainForeignScan (node, es)], with the options of the
    relation of the node in [cat]. *)
Definition mysqlExplainForeignScan (cat : Catalog) (es : ExplainState) : M ExplainState :=
  b ← get;
  let festate := fdw_state (node b) in
  s ← lift (mysqlGetOptions cat);
  if costs es then
    address ← deref (svr_address s);
    let es :=
      if is_local address
      then ExplainPropertyLong "Local server startup cost" 10 es
      else ExplainPropertyLong "Remote server startup cost" 25 es in
    festate ← deref festate;
    query ← deref (query festate);
    mret (ExplainPropertyText "MySQL query" query es)
  else mret es.

End Explain.

Export Explain.

(** ** Further notions *)

Module MoreNotions.

(** The variable of the resolver that the option [name] is stored in,
    for the six options kept as strings. *)
Definition svr_field (name : string) (s : svr) : option string :=
  if (name =? "address")%string then svr_address s
  else if (name =? "username")%string then svr_username s
  else if (name =? "password")%string then svr_password s
  else if (name =? "database")%string then svr_database s
  else if (name =? "query")%string then svr_query s
  else if (name =? "table")%string then svr_table s
  else None.

(** What the resolver returns, read off the last entry of each name. *)
Definition resolved (opts : list DefElem) : svr :=
  mkSvr (Some (default "127.0.0.1" (supplied "address" opts)))
        (match supplied "port" opts with
         | Some v => if atoi v =? 0 then 3306 else atoi v
         | None => 3306
         end)
        (supplied "username" opts)
        (supplied "password" opts)
        (supplied "database" opts)
        (supplied "query" opts)
        (supplied "table" opts).

(** The names the hint of the invalid-option error lists for a catalog. *)
Definition names_for (catalog : Oid) : string :=
  if catalog =? ForeignServerRelationId then "address, port"
  else if catalog =? UserMappingRelationId then "username, password"
  else if catalog =? ForeignTableRelationId then "database, query, table"
  else "<none>".

(** The option [name] can still be given in the state [s] of the
    validator: its variable is not set, and for [query] and [table]
    neither is the other's. *)
Definition free (name : string) (s : svr) : Prop :=
  seen name s = false
  ∧ (name = "port" -> svr_port s = 0)
  ∧ (name = "query" -> svr_table s = None)
  ∧ (name = "table" -> svr_query s = None).

(** The size of [buf] in [mysqlVerifymbstr]. *)
Definition buf_size : nat := 8 * 5 + 1.

(** [n] calls of [mysqlIterateForeignScan] in a row, as the executor
    makes them, with the slots they returned. *)
Fixpoint iterate_n (env : Env) (n : nat) : M (list TupleTableSlot) :=
  match n with
  | O => mret []
  | S n' =>
      slot ← mysqlIterateForeignScan env;
      rest ← iterate_n env n';
      mret (slot :: rest)
  end.

(** What the executor reads of a slot: nothing when it is empty, else
    the values and the null flags. *)
Definition tuple_of (slot : TupleTableSlot)
    : option (list (option Datum) * list (option bool)) :=
  if tts_isempty slot then None else Some (tts_values slot, tts_isnull slot).

(** A cell of the arrays set to the null value. *)
Definition null_cell (y : nat) (dvalues : list (option Datum)) (nulls : list (option bool))
    : nat * list (option Datum) * list (option bool) :=
  (y, <[y := Some Datum0]> dvalues, <[y := Some true]> nulls).

(** A cell set to what the input function of the column makes of
    [str], or its error. *)
Definition parsed_cell (a : Attr) (str : string) (y : nat)
    (dvalues : list (option Datum)) (nulls : list (option bool)) (b : Backend)
    : outcome (nat * list (option Datum) * list (option bool)) * Backend :=
  match attinfunc a str (atttypmod a) with
  | inr d => (Ok (y, <[y := Some d]> dvalues, <[y := Some false]> nulls), b)
  | inl e => (Raise e, b)
  end.

(** The notices for the dropped columns at positions [y] to
    [y + k - 1], the latest first as in the log. *)
Definition dropped_notices (y k : nat) : list (elevel * ErrorData) :=
  reverse ((fun i => (NOTICE, attisdropped_notice i)) <$> seq y k).

(** The array [a] with the cells [y] to [y + k - 1] set to [v]. *)
Definition padded {A} (y k : nat) (v : A) (a : list (option A)) : list (option A) :=
  take y a ++ replicate k (Some v) ++ drop (y + k) a.

(** A computation whose outcome does not depend on the state it runs
    in. *)
Definition blind {A} (m : M A) : Prop := ∀ b b', fst (m b) = fst (m b').

(** The conversion of one fetched row into the arrays of [n] cells that
    [mysqlIterateForeignScan] allocates for it. *)
Definition convert_row (env : Env) (attrs : list Attr) (n : nat) (row : MYSQL_ROW)
    : M (list (option Datum) * list (option bool)) :=
  for_fields env attrs row (mysql_fetch_lengths row) n 0 0 (replicate n None) (replicate n None).

(** What the executor reads of the outcome of a call that hands out a
    slot. *)
Definition tuple_returned (o : outcome TupleTableSlot)
    : outcome (option (list (option Datum) * list (option bool))) :=
  slot ← o; mret (tuple_of slot).

(** The result with the cursor on the row after the current one. *)
Definition advance (r : MYSQL_RES) : MYSQL_RES :=
  mkRes (res_fields r) (res_rows r) (S (res_cursor r)).

(** The cell one remote field gives in a live column, or the error of
    the column's input function: the value and the null flag. *)
Definition cell_of (env : Env) (a : Attr) (field : option string) : ErrorData + Datum * bool :=
  match field with
  | None => inr (Datum0, true)
  | Some bytes =>
      if (String.length bytes =? 0)%nat then
        match attinfunc a "" (atttypmod a) with
        | inl e => inl e
        | inr d => inr (d, false)
        end
      else if Ascii.eqb (typcategory a) TYPCATEGORY_STRING
              && negb (pg_verifymbstr env bytes (String.length bytes))
      then inr (Datum0, true)
      else
        match attinfunc a (c_str bytes) (atttypmod a) with
        | inl e => inl e
        | inr d => inr (d, false)
        end
  end.

(** The cells of a row, column by column, or the first error. *)
Fixpoint row_cells (env : Env) (attrs : list Attr) (row : MYSQL_ROW)
    : ErrorData + list (Datum * bool) :=
  match attrs, row with
  | a :: attrs', field :: row' =>
      match cell_of env a field with
      | inl e => inl e
      | inr c =>
          match row_cells env attrs' row' with
          | inl e => inl e
          | inr cs => inr (c :: cs)
          end
      end
  | _, _ => inr []
  end.

(** The tuple made of the cells, or the error raised. *)
Definition tuple_of_cells (cells : ErrorData + list (Datum * bool)) : outcome TupleTableSlot :=
  match cells with
  | inr cs => Ok (mkSlot false ((fun c => Some (fst c)) <$> cs) ((fun c => Some (snd c)) <$> cs))
  | inl e => Raise e
  end.

End MoreNotions.

Export MoreNotions.

(** ** Concrete surroundings for the closed statements *)

Module Examples.

(** Doubles that hold integers, exactly: enough for row estimates. *)
Definition integral : Double :=
  {| double := Z; of_int := fun z => z; dadd := Z.add; atof := strtol10 |}.

Definition all_digits (s : string) : bool :=
  forallb isdigit (list_ascii_of_string s).

(** An input function for integers: decimal digits, or an error; the
    empty string is no integer. *)
Definition int4in (s : string) (typmod : Z) : ErrorData + Datum :=
  if negb (String.length s =? 0)%nat && all_digits s
  then inr (DatumInt (strtol10 s))
  else inl (mkError ERRCODE_INVALID_TEXT_REPRESENTATION
                    ("invalid input syntax for integer: " +:+ dquote +:+ s +:+ dquote) None).

Definition textin (s : string) (typmod : Z) : ErrorData + Datum := inr (DatumText s).

Definition int4_column : Attr := mkAttr false "N"%char (-1) int4in.
Definition text_column : Attr := mkAttr false TYPCATEGORY_STRING (-1) textin.
Definition dropped_column : Attr := mkAttr true "N"%char (-1) int4in.

(** A seven-bit encoding: one byte per character, valid below 0x80. *)
Definition seven_bit (mbstr : string) (len : nat) : bool :=
  forallb (fun c => byte_of c <? 128) (take len (list_ascii_of_string mbstr)).

(** A server that accepts the connection or not, executes statements or
    not, and answers every statement with [res]. *)
Definition server (accepts executes : bool) (res : option (nat * list MYSQL_ROW)) : Env :=
  {| env_alloc := true;
     env_accepts := fun _ => accepts;
     env_executes := fun _ => executes;
     env_result := fun _ => res;
     env_error := "server said no";
     GetDatabaseEncodingName := "SQL_ASCII";
     pg_verifymbstr := seven_bit;
     pg_encoding_mblen := fun _ => 1%nat |}.

Definition empty_slot : TupleTableSlot := mkSlot true [] [].

(** A backend with no connection, over a relation with columns [attrs]. *)
Definition fresh (attrs : list Attr) : Backend :=
  mkBackend ∅ 0%nat [] [] (mkNode attrs empty_slot None).

Definition orders : Catalog := mkCatalog [mkDef "table" "orders"] [] [].

(** Ten bytes, the first two outside the seven-bit range. *)
Definition bad_bytes : string :=
  String (ascii_of_nat 255) (String (ascii_of_nat 254) "abcdefgh").

(** A scan begun on the table [orders] and asked for its first row. *)
Definition first_row (env : Env) (attrs : list Attr) : outcome TupleTableSlot * Backend :=
  (mysqlBeginForeignScan env orders;; mysqlIterateForeignScan env) (fresh attrs).

(** The state a scan of [orders] over one integer column is in after
    [mysqlBeginForeignScan]. *)
Definition begun (env : Env) : Backend :=
  snd (mysqlBeginForeignScan env orders (fresh [int4_column])).

(** A row as EXPLAIN prints it: id, select_type, table, type,
    possible_keys, key, key_len, ref, rows, Extra. *)
Definition explain_row (table estimate : string) : MYSQL_ROW :=
  [Some "1"; Some "SIMPLE"; Some table; Some "ALL"; None; None; None; None;
   Some estimate; Some ""].

End Examples.

Export Examples.

(** ** Further surroundings *)

Module MoreExamples.

(** A server that answers every statement with two rows of one field. *)
Definition two_rows : Env := server true true (Some (1%nat, [[Some "7"]; [Some "8"]])).

(** The scan of [orders] against it once the query was executed, then
    once the first row was handed out, then rewound. *)
Definition executed : Backend := snd (execute_query two_rows (begun two_rows)).

Definition after_first_row : Backend :=
  snd (mysqlIterateForeignScan two_rows (begun two_rows)).

Definition rewound : Backend := snd (mysqlReScanForeignScan after_first_row).

(** The state of the scan in [executed]. *)
Definition executed_state : MySQLFdwExecutionState :=
  mkState (Some 0%nat) (Some (mkRes 1 [[Some "7"]; [Some "8"]] 0))
          (Some "SELECT * FROM orders") 1.

End MoreExamples.

Export MoreExamples.

Module CLibFacts.

Lemma atoi_zero : atoi "0" = 0.
Proof. reflexivity. Qed.

(** A string that does not start, after white space, with a sign or a
    digit parses to 0. *)
Lemma atoi_not_a_number s :
  (∀ c r, skip_space s = String c r ->
          isdigit c = false ∧ Ascii.eqb c "-" = false ∧ Ascii.eqb c "+" = false) ->
  atoi s = 0.
Proof.
  intros Hs. unfold atoi, strtol10.
  destruct (skip_space s) as [|c r]; [reflexivity|].
  destruct (Hs c r eq_refl) as (Hd & -> & ->).
  cbn [digits]. by rewrite Hd.
Qed.

End CLibFacts.

Module OptionFacts.

Lemma eqb_name_true d name : defname d = name -> (defname d =? name)%string = true.
Proof. intros ->. apply String.eqb_refl. Qed.

Lemma eqb_name_false d name : defname d ≠ name -> (defname d =? name)%string = false.
Proof. intros Hne. by apply String.eqb_neq. Qed.

Lemma get_option_port s d :
  defname d = "port" -> get_option s d = set_port (atoi (defarg d)) s.
Proof.
  intros E. unfold get_option, defGetString. rewrite E. by destruct s.
Qed.

Lemma get_option_set_port s d p :
  defname d ≠ "port" -> get_option (set_port p s) d = set_port p (get_option s d).
Proof.
  intros Hne. unfold get_option. rewrite (eqb_name_false _ _ Hne).
  repeat match goal with |- context [(defname d =? ?n)%string] =>
    destruct (defname d =? n)%string end; reflexivity.
Qed.

Lemma set_port_twice p q s : set_port p (set_port q s) = set_port p s.
Proof. reflexivity. Qed.

Lemma set_port_same s : set_port (svr_port s) s = s.
Proof. by destruct s. Qed.

Lemma fold_get_option_set_port opts s p :
  Forall (fun d => ¬ named "port" d) opts ->
  fold_left get_option opts (set_port p s) = set_port p (fold_left get_option opts s).
Proof.
  intros Hall. revert s. induction Hall as [|d opts Hd _ IH]; intros s; [done|].
  cbn [fold_left]. rewrite get_option_set_port by exact Hd. apply IH.
Qed.

(** The port the resolver's loop ends with: that of the last [port]
    entry, parsed, or the one it started from. *)
Lemma fold_get_option_port opts s :
  fold_left get_option opts s =
  set_port (match supplied "port" opts with Some v => atoi v | None => svr_port s end)
           (fold_left get_option (filter (fun d => ¬ named "port" d) opts) s).
Proof.
  revert s. induction opts as [|d opts IH]; intros s.
  - cbn. by rewrite set_port_same.
  - cbn [fold_left supplied]. rewrite IH.
    destruct (decide (named "port" d)) as [Hp|Hp].
    + rewrite filter_cons_False by (intros Hn; by apply Hn).
      rewrite (get_option_port _ _ Hp), (eqb_name_true _ _ Hp).
      rewrite fold_get_option_set_port by (apply Forall_forall; intros x Hx%list_elem_of_filter; tauto).
      rewrite set_port_twice. by destruct (supplied "port" opts).
    + rewrite filter_cons_True by exact Hp. cbn [fold_left].
      rewrite (eqb_name_false _ _ Hp).
      destruct (supplied "port" opts); [done|].
      f_equal. clear IH.
      assert (svr_port (get_option s d) = svr_port s) as ->; [|done].
      unfold get_option. rewrite (eqb_name_false _ _ Hp).
      repeat match goal with |- context [(defname d =? ?n)%string] =>
        destruct (defname d =? n)%string end; reflexivity.
Qed.

Lemma supplied_without (opts : list DefElem) name : supplied name (filter (fun d => ¬ named name d) opts) = None.
Proof.
  induction opts as [|d opts IH]; [done|].
  destruct (decide (named name d)) as [Hp|Hp].
  - by rewrite filter_cons_False by (intros Hn; by apply Hn).
  - rewrite filter_cons_True by exact Hp. cbn. rewrite IH. by rewrite eqb_name_false.
Qed.

Lemma filter_without_idem (opts : list DefElem) name :
  filter (fun d => ¬ named name d) (filter (fun d => ¬ named name d) opts)
  = filter (fun d => ¬ named name d) opts.
Proof.
  induction opts as [|d opts IH]; [done|].
  destruct (decide (named name d)) as [Hp|Hp].
  - by rewrite filter_cons_False by (intros Hn; by apply Hn).
  - rewrite !filter_cons_True by exact Hp. by rewrite IH.
Qed.

Lemma all_options_without name cat :
  all_options (without name cat) = filter (fun d => ¬ named name d) (all_options cat).
Proof. unfold all_options, without. cbn. by rewrite !filter_app. Qed.

Lemma mysqlGetOptions_resolve cat : mysqlGetOptions cat = resolve (all_options cat).
Proof. unfold mysqlGetOptions, resolve, all_options. cbn. by rewrite app_assoc. Qed.

End OptionFacts.

Import OptionFacts.

Module ValidatorFacts.

Ltac names_of d :=
  repeat match goal with
  | |- context [(defname d =? ?n)%string] => destruct (defname d =? n)%string
  end.

Lemma valid_table_option n :
  mysqlIsValidOption n ForeignTableRelationId = true ->
  n = "database" ∨ n = "query" ∨ n = "table".
Proof.
  unfold mysqlIsValidOption. cbn -[String.eqb].
  destruct ("database" =? n)%string eqn:E1; [apply String.eqb_eq in E1; auto|].
  destruct ("query" =? n)%string eqn:E2; [apply String.eqb_eq in E2; auto|].
  destruct ("table" =? n)%string eqn:E3; [apply String.eqb_eq in E3; auto|].
  discriminate.
Qed.

Lemma get_option_table s d :
  defname d ≠ "table" -> svr_table (get_option s d) = svr_table s.
Proof.
  intros Hne. unfold get_option. rewrite (eqb_name_false _ _ Hne). names_of d; reflexivity.
Qed.

Lemma get_option_query s d :
  defname d ≠ "query" -> svr_query (get_option s d) = svr_query s.
Proof.
  intros Hne. unfold get_option. rewrite (eqb_name_false _ _ Hne). names_of d; reflexivity.
Qed.

Lemma fold_get_option_table opts s :
  Forall (fun d => defname d ≠ "table" ∧ defname d ≠ "query") opts ->
  svr_table (fold_left get_option opts s) = svr_table s
  ∧ svr_query (fold_left get_option opts s) = svr_query s.
Proof.
  intros Hall. revert s. induction Hall as [|d opts [Ht Hq] _ IH]; intros s; [done|].
  cbn [fold_left]. destruct (IH (get_option s d)) as [-> ->].
  by rewrite get_option_table, get_option_query.
Qed.

(** No error of the validator is the resolver's complaint about a
    missing table and query. *)
Lemma validate_option_raise catalog s d e :
  validate_option catalog s d = Raise e -> e ≠ table_or_query_required.
Proof.
  unfold validate_option, mbind, outcome_bind.
  intros Hv ->. revert Hv.
  repeat (case_match; try discriminate); simplify_eq; by intros [=].
Qed.

Lemma validate_options_raise catalog opts s e :
  validate_options catalog s opts = Raise e -> e ≠ table_or_query_required.
Proof.
  revert s. induction opts as [|d opts IH]; intros s; cbn; [discriminate|].
  unfold mbind, outcome_bind.
  destruct (validate_option catalog s d) as [s'| e' |f] eqn:Hd; try discriminate.
  - apply IH.
  - intros [= ->]. by eapply validate_option_raise.
Qed.

End ValidatorFacts.

Import ValidatorFacts.

Module ResolverFacts.

Lemma get_option_fields s d :
  get_option s d
  = mkSvr (if (defname d =? "address")%string then Some (defarg d) else svr_address s)
          (if (defname d =? "port")%string then atoi (defarg d) else svr_port s)
          (if (defname d =? "username")%string then Some (defarg d) else svr_username s)
          (if (defname d =? "password")%string then Some (defarg d) else svr_password s)
          (if (defname d =? "database")%string then Some (defarg d) else svr_database s)
          (if (defname d =? "query")%string then Some (defarg d) else svr_query s)
          (if (defname d =? "table")%string then Some (defarg d) else svr_table s).
Proof.
  unfold get_option, defGetString. destruct s.
  repeat match goal with |- context [(defname d =? ?n)%string] =>
    destruct (defname d =? n)%string end; reflexivity.
Qed.

(** The loop of the resolver keeps, for every name, the last entry. *)
Lemma fold_get_option_supplied opts s :
  fold_left get_option opts s
  = mkSvr (match supplied "address" opts with Some v => Some v | None => svr_address s end)
          (match supplied "port" opts with Some v => atoi v | None => svr_port s end)
          (match supplied "username" opts with Some v => Some v | None => svr_username s end)
          (match supplied "password" opts with Some v => Some v | None => svr_password s end)
          (match supplied "database" opts with Some v => Some v | None => svr_database s end)
          (match supplied "query" opts with Some v => Some v | None => svr_query s end)
          (match supplied "table" opts with Some v => Some v | None => svr_table s end).
Proof.
  revert s. induction opts as [|d opts IH]; intros s; [by destruct s|].
  cbn [fold_left supplied]. rewrite IH, get_option_fields. cbn [svr_address svr_port
    svr_username svr_password svr_database svr_query svr_table].
  f_equal; match goal with |- context [supplied ?n opts] => destruct (supplied n opts) end;
    try reflexivity; by destruct (defname d =? _)%string.
Qed.

Lemma supplied_app name (l1 l2 : list DefElem) :
  supplied name (l1 ++ l2)
  = match supplied name l2 with Some v => Some v | None => supplied name l1 end.
Proof.
  induction l1 as [|d l1 IH]; cbn; [by destruct (supplied name l2)|].
  rewrite IH. by destruct (supplied name l2).
Qed.

(** The resolver as a function of the last entries. *)
Lemma mysqlGetOptions_resolved cat :
  mysqlGetOptions cat
  = if bool_decide (supplied "table" (all_options cat) = None
                    ∧ supplied "query" (all_options cat) = None)
    then Raise table_or_query_required
    else Ok (resolved (all_options cat)).
Proof.
  rewrite mysqlGetOptions_resolve. unfold resolve, resolved.
  rewrite fold_get_option_supplied. cbn [svr_init svr_address svr_port svr_username
    svr_password svr_database svr_query svr_table].
  destruct (supplied "address" _), (supplied "port" _) as [v|], (supplied "table" _),
    (supplied "query" _), (supplied "username" _), (supplied "password" _),
    (supplied "database" _); cbn -[atoi]; try destruct (atoi v =? 0) eqn:E; cbn -[atoi];
    rewrite ?E; reflexivity.
Qed.

Lemma supplied_none name (opts : list DefElem) :
  Forall (fun d => defname d ≠ name) opts -> supplied name opts = None.
Proof.
  induction 1 as [|d opts Hd _ IH]; [done|]. cbn. rewrite IH. by rewrite eqb_name_false.
Qed.

Lemma supplied_is_some name (opts : list DefElem) d :
  d ∈ opts -> defname d = name -> is_Some (supplied name opts).
Proof.
  induction opts as [|d0 opts IH]; intros Hin Hn; [by apply elem_of_nil in Hin|].
  cbn. apply elem_of_cons in Hin as [->|Hin].
  - destruct (supplied name opts); [by eexists|]. rewrite eqb_name_true by done. by eexists.
  - destruct (IH Hin Hn) as [v ->]. by eexists.
Qed.

Lemma supplied_some name (opts : list DefElem) v :
  supplied name opts = Some v -> ∃ d, d ∈ opts ∧ defname d = name.
Proof.
  revert v. induction opts as [|d0 opts IH]; intros v; [done|]. cbn.
  destruct (supplied name opts) as [w|].
  - intros _. destruct (IH w eq_refl) as (d & Hd & Hn). exists d. split; [by right|done].
  - destruct (String.eqb_spec (defname d0) name) as [Hn|]; [|done].
    intros _. exists d0. split; [left|done].
Qed.

End ResolverFacts.

Import ResolverFacts.

(** C8: a port option whose value parses to 0 resolves exactly as an
    absent port option does, and the port that results is 3306: when
    the options name a table or a query, the resolver returns, with
    what it returns when every port entry is taken out, and the port in
    it is 3306. *)
Theorem port_zero_resolves_to_default (cat : Catalog) (v : string) :
  supplied "port" (all_options cat) = Some v ->
  atoi v = 0 ->
  mysqlGetOptions cat = mysqlGetOptions (without "port" cat)
  ∧ (∀ s, mysqlGetOptions cat = Ok s -> svr_port s = 3306)
  ∧ (is_Some (supplied "table" (all_options cat))
     ∨ is_Some (supplied "query" (all_options cat)) ->
     ∃ s, mysqlGetOptions cat = Ok s
          ∧ mysqlGetOptions (without "port" cat) = Ok s
          ∧ svr_port s = 3306).
Proof.
  intros Hv Hz.
  assert (resolve (all_options cat) = resolve (filter (fun d => ¬ named "port" d) (all_options cat))) as Heq.
  { unfold resolve.
    rewrite (fold_get_option_port (all_options cat)), Hv, Hz.
    rewrite (fold_get_option_port (filter _ _)), supplied_without, filter_without_idem.
    reflexivity. }
  assert (mysqlGetOptions cat = mysqlGetOptions (without "port" cat)) as Hsame
    by by rewrite !mysqlGetOptions_resolve, all_options_without.
  assert (∀ s, mysqlGetOptions cat = Ok s -> svr_port s = 3306) as Hport.
  { intros s. rewrite mysqlGetOptions_resolve. unfold resolve.
    rewrite (fold_get_option_port (all_options cat)), Hv, Hz.
    set (s0 := fold_left get_option _ _).
    repeat case_match; intros [= <-]; cbn in *; try done. }
  split; [exact Hsame|]. split; [exact Hport|].
  intros Hnamed.
  assert (mysqlGetOptions cat = Ok (resolved (all_options cat))) as Hret.
  { rewrite mysqlGetOptions_resolved. rewrite bool_decide_eq_false_2; [done|].
    intros [Ht Hq]. rewrite Ht, Hq in Hnamed. by destruct Hnamed as [[? [=]]|[? [=]]]. }
  exists (resolved (all_options cat)).
  split; [exact Hret|]. split; [by rewrite <- Hsame|]. by apply Hport.
Qed.

Lemma port_zero_resolves_to_default_witness :
  (∃ s, mysqlGetOptions (mkCatalog [mkDef "table" "orders"] [mkDef "port" "0"] []) = Ok s
        ∧ mysqlGetOptions (without "port" (mkCatalog [mkDef "table" "orders"]
                                                     [mkDef "port" "0"] [])) = Ok s
        ∧ svr_port s = 3306)
  ∧ (∃ s, mysqlGetOptions (mkCatalog [mkDef "query" "SELECT 1"]
                                     [mkDef "port" "3307"; mkDef "port" "none"] []) = Ok s
          ∧ mysqlGetOptions (without "port" (mkCatalog [mkDef "query" "SELECT 1"]
                                               [mkDef "port" "3307"; mkDef "port" "none"] []))
            = Ok s
          ∧ svr_port s = 3306).
Proof.
  split.
  - apply (port_zero_resolves_to_default
             (mkCatalog [mkDef "table" "orders"] [mkDef "port" "0"] []) "0");
      [reflexivity | reflexivity | left; by eexists].
  - apply (port_zero_resolves_to_default
             (mkCatalog [mkDef "query" "SELECT 1"]
                        [mkDef "port" "3307"; mkDef "port" "none"] []) "none");
      [reflexivity | reflexivity | right; by eexists].
Defined.

(** C9: a table-level option list with neither [table] nor [query], and
    nothing else the validator objects to (every name valid for a
    foreign table, none repeated), passes validation; no error of the
    validator, on any list, is the missing-table-or-query error; and
    resolving the options of a table that has such a list raises that
    error when server and user mapping name no table or query either. *)
Theorem validator_does_not_require_table_or_query (opts : list DefElem) :
  Forall (fun d => defname d ≠ "table" ∧ defname d ≠ "query") opts ->
  Forall (fun d => mysqlIsValidOption (defname d) ForeignTableRelationId = true) opts ->
  NoDup (map defname opts) ->
  mysql_fdw_validator opts ForeignTableRelationId = Ok tt
  ∧ (∀ any catalog e, mysql_fdw_validator any catalog = Raise e -> e ≠ table_or_query_required)
  ∧ (∀ server mapping,
        Forall (fun d => defname d ≠ "table" ∧ defname d ≠ "query") (server ++ mapping) ->
        mysqlGetOptions (mkCatalog opts server mapping) = Raise table_or_query_required).
Proof.
  intros Hno Hvalid Hnodup. split; [|split].
  - assert (Forall (fun d => defname d = "database") opts) as Hdb.
    { apply Forall_forall. intros d Hd.
      rewrite Forall_forall in Hno, Hvalid.
      destruct (valid_table_option _ (Hvalid d Hd)) as [?|[?|?]]; [done|..];
        destruct (Hno d Hd); done. }
    destruct opts as [|d [|d' opts]].
    + reflexivity.
    + apply Forall_cons in Hdb as [Hd _]. apply Forall_cons in Hvalid as [Hv _].
      unfold mysql_fdw_validator. cbn. unfold validate_option.
      rewrite Hv, Hd. reflexivity.
    + exfalso. apply Forall_cons in Hdb as [Hd Hdb]. apply Forall_cons in Hdb as [Hd' _].
      cbn in Hnodup. rewrite Hd, Hd' in Hnodup.
      apply NoDup_cons in Hnodup as [Hin _]. apply Hin. left.
  - intros any catalog e. unfold mysql_fdw_validator, mbind, outcome_bind.
    destruct (validate_options catalog svr_init any) eqn:Hv; try discriminate.
    intros [= <-]. by eapply validate_options_raise.
  - intros server mapping Hsm.
    rewrite mysqlGetOptions_resolve. unfold all_options. cbn [f_table f_server f_mapping].
    assert (Forall (fun d => defname d ≠ "table" ∧ defname d ≠ "query") (opts ++ server ++ mapping)) as Hall
      by (by apply Forall_app).
    destruct (fold_get_option_table _ svr_init Hall) as [Ht Hq].
    unfold resolve. set (s0 := fold_left get_option _ _) in *.
    cbn in Ht, Hq.
    destruct s0 as [a p u pw db q t]. cbn in Ht, Hq. subst q t.
    destruct a; cbn; destruct (p =? 0); reflexivity.
Qed.

Lemma validator_does_not_require_table_or_query_witness :
  mysql_fdw_validator [mkDef "database" "shop"] ForeignTableRelationId = Ok tt
  ∧ (∀ any catalog e, mysql_fdw_validator any catalog = Raise e -> e ≠ table_or_query_required)
  ∧ (∀ server mapping,
        Forall (fun d => defname d ≠ "table" ∧ defname d ≠ "query") (server ++ mapping) ->
        mysqlGetOptions (mkCatalog [mkDef "database" "shop"] server mapping)
        = Raise table_or_query_required).
Proof.
  apply (validator_does_not_require_table_or_query [mkDef "database" "shop"]).
  - repeat constructor; discriminate.
  - repeat constructor.
  - cbn. apply NoDup_singleton.
Defined.

Module RepeatFacts.

(** Comparisons of two string constants, evaluated. *)
Ltac eval_eqb :=
  repeat match goal with
  | |- context [String.eqb ?a ?b] =>
      let v := eval vm_compute in (String.eqb a b) in
      match v with
      | true => change (String.eqb a b) with true
      | false => change (String.eqb a b) with false
      end
  end.

Lemma valid_option_names n catalog :
  mysqlIsValidOption n catalog = true ->
  n ∈ ["address"; "port"; "username"; "password"; "database"; "query"; "table"].
Proof.
  unfold mysqlIsValidOption, valid_options. cbn [existsb optname optcontext].
  rewrite !orb_true_iff, !andb_true_iff, !String.eqb_eq.
  rewrite !elem_of_cons. intuition (subst; auto; discriminate).
Qed.

(** The seven ways the body of the validator's loop returns. *)
Lemma validate_option_ok catalog s d s' :
  validate_option catalog s d = Ok s' ->
  (defname d = "address" ∧ svr_address s = None ∧ s' = set_address (Some (defarg d)) s)
  ∨ (defname d = "port" ∧ svr_port s = 0 ∧ s' = set_port (atoi (defarg d)) s)
  ∨ (defname d = "username" ∧ svr_username s = None ∧ s' = set_username (Some (defarg d)) s)
  ∨ (defname d = "password" ∧ svr_password s = None ∧ s' = set_password (Some (defarg d)) s)
  ∨ (defname d = "database" ∧ svr_database s = None ∧ s' = set_database (Some (defarg d)) s)
  ∨ (defname d = "query" ∧ svr_query s = None ∧ svr_table s = None
     ∧ s' = set_query (Some (defarg d)) s)
  ∨ (defname d = "table" ∧ svr_query s = None ∧ svr_table s = None
     ∧ s' = set_table (Some (defarg d)) s).
Proof.
  unfold validate_option.
  destruct (mysqlIsValidOption (defname d) catalog) eqn:Hvalid; [|discriminate].
  apply valid_option_names in Hvalid.
  destruct s as [a p u pw db q t]. unfold defGetString.
  repeat (apply elem_of_cons in Hvalid as [Hn|Hvalid]); [..|by apply elem_of_nil in Hvalid].
  all: rewrite Hn; unfold mbind, outcome_bind; eval_eqb; cbn -[String.eqb atoi].
  all: repeat match goal with
       | |- context [is_set ?o] => destruct o; cbn -[String.eqb atoi]
       | |- context [negb (?z =? 0)] =>
           destruct (Z.eqb_spec z 0); cbn -[String.eqb atoi]
       end; try discriminate.
  all: intros [= <-]; subst; tauto.
Qed.

Lemma validate_option_seen catalog s d s' :
  validate_option catalog s d = Ok s' ->
  (∀ name, seen name s = true -> seen name s' = true)
  ∧ (defname d ≠ "port" -> seen (defname d) s' = true)
  ∧ seen (defname d) s = false.
Proof.
  intros Hv. destruct s as [a p u pw db q t].
  destruct (validate_option_ok _ _ _ _ Hv)
    as [(Hn & Hs & ->)|[(Hn & Hs & ->)|[(Hn & Hs & ->)|[(Hn & Hs & ->)|[(Hn & Hs & ->)
       |[(Hn & Hs & Ht & ->)|(Hn & Hs & Ht & ->)]]]]]];
    cbn in Hs; try (cbn in Ht); subst; rewrite Hn.
  all: split; [|split; [try done; intros _; reflexivity|reflexivity]].
  all: intros name; unfold seen; cbn -[String.eqb]; repeat case_match; done.
Qed.

Lemma validate_options_seen catalog opts s d :
  d ∈ opts -> seen (defname d) s = true -> ∀ s', validate_options catalog s opts ≠ Ok s'.
Proof.
  revert s. induction opts as [|d0 opts IH]; intros s Hin Hseen s'; [by apply elem_of_nil in Hin|].
  cbn. unfold mbind, outcome_bind.
  destruct (validate_option catalog s d0) as [s0|e|f] eqn:Hd0; [|done..].
  destruct (validate_option_seen _ _ _ _ Hd0) as (Hmono & _ & Hnot).
  apply elem_of_cons in Hin as [->|Hin]; [congruence|].
  apply IH; [done|]. by apply Hmono.
Qed.

Lemma validate_options_no_fault catalog opts s f :
  validate_options catalog s opts ≠ Fault f.
Proof.
  revert s. induction opts as [|d opts IH]; intros s; cbn; [done|].
  unfold mbind, outcome_bind.
  destruct (validate_option catalog s d) as [s0|e|f0] eqn:Hd; [apply IH|done|].
  exfalso. revert Hd. unfold validate_option, mbind, outcome_bind.
  repeat (case_match; try discriminate).
Qed.

(** Every option but the port: naming it twice is an error, whatever
    the catalog and the rest of the list. *)
Lemma validator_rejects_repeated catalog (opts : list DefElem) i j d1 d2 :
  (i < j)%nat ->
  opts !! i = Some d1 ->
  opts !! j = Some d2 ->
  defname d1 = defname d2 ->
  defname d1 ≠ "port" ->
  ∃ e, mysql_fdw_validator opts catalog = Raise e.
Proof.
  intros Hij Hi Hj Hname Hport.
  assert (∀ s s', validate_options catalog s opts ≠ Ok s') as Hnot.
  { revert i j Hij Hi Hj. induction opts as [|d0 opts IH]; intros i j Hij Hi Hj s s'; [done|].
    cbn. unfold mbind, outcome_bind.
    destruct (validate_option catalog s d0) as [s0|e|f] eqn:Hd0; [|done..].
    destruct i as [|i].
    - injection Hi as ->. destruct j as [|j]; [lia|]. cbn in Hj.
      destruct (validate_option_seen _ _ _ _ Hd0) as (_ & Hset & _).
      apply (validate_options_seen catalog opts s0 d2); [by eapply list_elem_of_lookup_2|].
      rewrite <- Hname. by apply Hset.
    - destruct j as [|j]; [lia|]. cbn in Hi, Hj. apply (IH i j); [lia|done..]. }
  unfold mysql_fdw_validator, mbind, outcome_bind.
  destruct (validate_options catalog svr_init opts) as [s'|e|f] eqn:Hv.
  - by destruct (Hnot svr_init s').
  - eauto.
  - by destruct (validate_options_no_fault catalog opts svr_init f).
Qed.

End RepeatFacts.

(** C7: the validator at a list that names [port] twice, the first time
    with a value that parses to 0: it returns without an error. *)
Theorem validator_accepts_port_after_port_zero :
  mysql_fdw_validator [mkDef "port" "0"; mkDef "port" "3306"] ForeignServerRelationId = Ok tt
  ∧ mysql_fdw_validator [mkDef "port" "none"; mkDef "port" "3306"] ForeignServerRelationId = Ok tt
  ∧ (∃ e, mysql_fdw_validator [mkDef "port" "3306"; mkDef "port" "0"] ForeignServerRelationId = Raise e).
Proof. repeat split; [reflexivity..|eexists; reflexivity]. Qed.

Module PlanFacts.

Lemma string_take_all s n : (String.length s <= n)%nat -> string_take n s = s.
Proof.
  revert n. induction s as [|c s IH]; intros [|n] Hn; cbn in *; try done; try lia.
  f_equal. apply IH. lia.
Qed.

Lemma length_append s t : String.length (s +:+ t) = (String.length s + String.length t)%nat.
Proof. induction s as [|c s IH]; simpl; [done|]. by f_equal. Qed.

Lemma snprintf_fits prefix s k :
  k = S (String.length prefix) ->
  snprintf (String.length s + k) (prefix +:+ s) = prefix +:+ s.
Proof.
  intros ->. unfold snprintf. apply string_take_all. rewrite length_append. lia.
Qed.

Lemma is_local_decide {A} (address : string) (x y : A) :
  (if is_local address then x else y)
  = (if decide (address = "127.0.0.1" ∨ address = "localhost") then x else y).
Proof.
  unfold is_local.
  destruct (String.eqb_spec address "127.0.0.1") as [->|Hne1]; [by rewrite decide_True by auto|].
  destruct (String.eqb_spec address "localhost") as [->|Hne2]; [by rewrite decide_True by auto|].
  rewrite decide_False by (intros [?|?]; done). done.
Qed.

Lemma mysqlGetOptions_address cat s :
  mysqlGetOptions cat = Ok s -> ∃ address, svr_address s = Some address.
Proof.
  rewrite mysqlGetOptions_resolve. unfold resolve.
  set (s0 := fold_left get_option _ _).
  destruct s0 as [[a|] p u pw db q t]; cbn; repeat case_match; intros [= <-]; cbn; eauto.
Qed.

Lemma mysqlGetOptions_effective cat s :
  mysqlGetOptions cat = Ok s -> ∃ eff, effective_query s = Some eff.
Proof.
  rewrite mysqlGetOptions_resolve. unfold resolve, effective_query.
  set (s0 := fold_left get_option _ _).
  destruct s0 as [a p u pw db [q|] [t|]]; destruct a; cbn; repeat case_match;
    intros [= <-]; cbn in *; simplify_eq; eauto.
Qed.

Lemma scan_query_effective s eff b :
  effective_query s = Some eff -> scan_query s b = (Ok eff, b).
Proof.
  unfold effective_query, scan_query. destruct (svr_query s) as [q|]; [by intros [= ->]|].
  destruct (svr_table s) as [t|]; [|done]. intros [= <-].
  unfold mbind, M_bind, deref, mret, M_ret.
  by rewrite (snprintf_fits "SELECT * FROM ").
Qed.

Lemma explain_query_effective s eff b :
  effective_query s = Some eff -> explain_query s b = (Ok ("EXPLAIN " +:+ eff), b).
Proof.
  unfold effective_query, explain_query. destruct (svr_query s) as [q|].
  - intros [= ->]. unfold mret, M_ret. by rewrite (snprintf_fits "EXPLAIN ").
  - destruct (svr_table s) as [t|]; [|done]. intros [= <-].
    unfold mbind, M_bind, deref, mret, M_ret.
    by rewrite (snprintf_fits "EXPLAIN SELECT * FROM ").
Qed.

Section WithDouble.
Context `{Double}.

Lemma sum_rows_defined rows acc :
  Forall has_rows_field rows ->
  sum_rows rows acc = Ok (fold_left (fun acc f => dadd acc (atof (c_str f))) (rows_column rows) acc).
Proof.
  intros Hall. revert acc. induction Hall as [|row rows [f Hf] _ IH]; intros acc; [done|].
  cbn. rewrite Hf. cbn. apply IH.
Qed.

Lemma sum_rows_fault rows acc :
  ¬ Forall has_rows_field rows -> ∃ f, sum_rows rows acc = Fault f.
Proof.
  revert acc. induction rows as [|row rows IH]; intros acc Hnot.
  - destruct Hnot. constructor.
  - cbn. destruct (row !! 8%nat) as [[f|]|] eqn:Hf; [|eauto..].
    apply IH. intros Hall. apply Hnot. constructor; [by exists f|done].
Qed.

End WithDouble.

End PlanFacts.

Import PlanFacts.

Module RunFacts.

(** Unfolding of the state-passing operations and of the client calls. *)
Ltac unfold_M :=
  cbv [mbind M_bind mret M_ret lift deref raise fault get put report on_conn
       mysql_init mysql_options mysql_real_connect mysql_query mysql_store_result
       mysql_error mysql_close mysql_free_result
       set_conns set_sent set_log set_node].

Ltac project_state :=
  cbn [conns next_conn sent log node fst snd negb is_set_ptr
       rd_att ss_ScanTupleSlot fdw_state conn result query num_fields].

(** Projections of a state that is written out, and lookups of the
    connection just inserted. *)
Ltac settle :=
  repeat first [progress project_state
               | progress change (0 =? 0) with true
               | progress change (1 =? 0) with false
               | rewrite lookup_insert_eq
               | rewrite lookup_delete_eq].

Lemma on_conn_live {A} h last (k : MYSQL -> option string -> M A) b :
  conns b !! h = Some last -> on_conn (Some h) k b = k h last b.
Proof. intros Hl. unfold_M. by rewrite Hl. Qed.

Lemma on_conn_closed {A} h (k : MYSQL -> option string -> M A) b :
  conns b !! h = None -> on_conn (Some h) k b = (Fault UseAfterClose, b).
Proof. intros Hl. unfold_M. by rewrite Hl. Qed.

End RunFacts.

Import RunFacts.

Section PlanTheorems.
Context `{Double}.

Lemma plan_returns env cat b s address eff n rows :
  mysqlGetOptions cat = Ok s ->
  svr_address s = Some address ->
  effective_query s = Some eff ->
  env_alloc env = true ->
  env_accepts env s = true ->
  env_executes env ("EXPLAIN " +:+ eff) = true ->
  env_result env ("EXPLAIN " +:+ eff) = Some (n, rows) ->
  Forall has_rows_field rows ->
  let cost := if is_local address then of_int 10 else of_int 25 in
  mysqlPlanForeignScan env cat b
  = (Ok (mkPlan cost (dadd (row_estimate rows) cost) (row_estimate rows) (row_estimate rows)),
     mkBackend (delete (next_conn b) (<[next_conn b := Some ("EXPLAIN " +:+ eff)]> (<[next_conn b := None]> (conns b))))
               (S (next_conn b)) (("EXPLAIN " +:+ eff) :: sent b) (log b) (node b)).
Proof.
  intros Hopt Haddr Heff Halloc Hacc Hexec Hres Hrows cost.
  unfold mysqlPlanForeignScan. unfold_M.
  rewrite Hopt, Haddr, Halloc. settle.
  rewrite Hacc. settle.
  rewrite (explain_query_effective _ _ _ Heff). settle.
  rewrite Hexec. settle.
  rewrite Hres. cbn [res_cursor res_rows drop].
  rewrite (sum_rows_defined _ _ Hrows). settle.
  reflexivity.
Qed.

Lemma sum_rows_returned rows acc total :
  sum_rows rows acc = Ok total ->
  Forall has_rows_field rows
  ∧ total = fold_left (fun acc f => dadd acc (atof (c_str f))) (rows_column rows) acc.
Proof.
  revert acc. induction rows as [|row rows IH]; intros acc; cbn.
  - intros [= <-]. by split.
  - destruct (row !! 8%nat) as [[f|]|] eqn:Hf; [|discriminate..].
    intros Hs. destruct (IH _ Hs) as [Hall ->]. split; [|done].
    constructor; [by exists f|done].
Qed.

(** What an invocation that returned a plan went through, and the plan. *)
Lemma plan_returned env cat b plan b' :
  mysqlPlanForeignScan env cat b = (Ok plan, b') ->
  ∃ s address eff n rows,
    mysqlGetOptions cat = Ok s
    ∧ svr_address s = Some address
    ∧ effective_query s = Some eff
    ∧ env_accepts env s = true
    ∧ env_result env ("EXPLAIN " +:+ eff) = Some (n, rows)
    ∧ Forall has_rows_field rows
    ∧ plan = (let cost := if is_local address then of_int 10 else of_int 25 in
              mkPlan cost (dadd (row_estimate rows) cost) (row_estimate rows) (row_estimate rows)).
Proof.
  destruct (mysqlGetOptions cat) as [s|e|f] eqn:Hopt.
  2,3: unfold mysqlPlanForeignScan; unfold_M; rewrite Hopt; discriminate.
  destruct (mysqlGetOptions_address _ _ Hopt) as [address Haddr].
  destruct (mysqlGetOptions_effective _ _ Hopt) as [eff Heff].
  unfold mysqlPlanForeignScan. unfold_M.
  rewrite Hopt, Haddr.
  destruct (env_alloc env); settle; [|discriminate].
  destruct (env_accepts env s) eqn:Hacc; settle; [|discriminate].
  rewrite (explain_query_effective _ _ _ Heff). settle.
  destruct (env_executes env _); settle; [|discriminate].
  destruct (env_result env _) as [[n rows]|] eqn:Hres; settle; [|discriminate].
  cbn [res_cursor res_rows].
  destruct (sum_rows _ _) as [total|e|f] eqn:Hsum; settle; [|discriminate..].
  intros [= <- <-]. apply sum_rows_returned in Hsum as [Hall ->].
  exists s, address, eff, n, rows. by repeat split.
Qed.

(** The probe over rows of which one lacks the column: a fault, with
    the connection object still held. *)
Lemma plan_faults env cat b s eff n rows :
  mysqlGetOptions cat = Ok s ->
  effective_query s = Some eff ->
  env_alloc env = true ->
  env_accepts env s = true ->
  env_executes env ("EXPLAIN " +:+ eff) = true ->
  env_result env ("EXPLAIN " +:+ eff) = Some (n, rows) ->
  ¬ Forall has_rows_field rows ->
  ∃ f b', mysqlPlanForeignScan env cat b = (Fault f, b').
Proof.
  intros Hopt Heff Halloc Hacc Hexec Hres Hrows.
  destruct (mysqlGetOptions_address _ _ Hopt) as [address Haddr].
  destruct (sum_rows_fault rows (of_int 0) Hrows) as [f Hf].
  unfold mysqlPlanForeignScan. unfold_M.
  rewrite Hopt, Haddr, Halloc. settle.
  rewrite Hacc. settle.
  rewrite (explain_query_effective _ _ _ Heff). settle.
  rewrite Hexec. settle.
  rewrite Hres. cbn [res_cursor res_rows].
  change (drop 0 rows) with rows. rewrite Hf. eauto.
Qed.

(** C5: every plan invocation that returns a plan: the startup cost is
    10 when the resolved address is 127.0.0.1 or localhost and 25
    otherwise, the row estimate is the sum of the row-estimate column
    over the rows the EXPLAIN probe returned, and the total cost is the
    row estimate plus the startup cost.  And the invocation does return
    a plan whenever the options resolve, the server accepts the
    connection and answers the probe, and every row has the column. *)
Theorem plan_costs env cat b :
  (∀ plan b',
     mysqlPlanForeignScan env cat b = (Ok plan, b') ->
     ∃ s address eff n rows,
       mysqlGetOptions cat = Ok s
       ∧ svr_address s = Some address
       ∧ effective_query s = Some eff
       ∧ env_result env ("EXPLAIN " +:+ eff) = Some (n, rows)
       ∧ Forall has_rows_field rows
       ∧ startup_cost plan
         = (if decide (address = "127.0.0.1" ∨ address = "localhost")
            then of_int 10 else of_int 25)
       ∧ baserel_rows plan = row_estimate rows
       ∧ total_cost plan = dadd (baserel_rows plan) (startup_cost plan))
  ∧ (∀ s eff n rows,
       mysqlGetOptions cat = Ok s ->
       effective_query s = Some eff ->
       env_alloc env = true ->
       env_accepts env s = true ->
       env_executes env ("EXPLAIN " +:+ eff) = true ->
       env_result env ("EXPLAIN " +:+ eff) = Some (n, rows) ->
       Forall has_rows_field rows ->
       ∃ plan b', mysqlPlanForeignScan env cat b = (Ok plan, b')).
Proof.
  split.
  - intros plan b' Hplan.
    destruct (plan_returned _ _ _ _ _ Hplan)
      as (s & address & eff & n & rows & ? & ? & ? & _ & ? & ? & ->).
    exists s, address, eff, n, rows. repeat split; try done.
    cbn [startup_cost]. apply is_local_decide.
  - intros s eff n rows Hopt Heff Halloc Hacc Hexec Hres Hrows.
    destruct (mysqlGetOptions_address _ _ Hopt) as [address Haddr].
    do 2 eexists. by eapply plan_returns.
Qed.

(** C10: the probe reads field 8 of every row unguarded.  Its loop
    yields the sum when every row has a ninth field that is not NULL,
    and steps out of bounds or through NULL when some row has not; it
    raises no error.  So a probe whose connection and statement
    succeeded returns a plan exactly when every row has the field, and
    faults when one has not. *)
Theorem sum_rows_needs_ninth_field (rows : list MYSQL_ROW) (acc : double) :
  (Forall has_rows_field rows ->
     sum_rows rows acc
     = Ok (fold_left (fun acc f => dadd acc (atof (c_str f))) (rows_column rows) acc))
  ∧ (¬ Forall has_rows_field rows -> ∃ f, sum_rows rows acc = Fault f)
  ∧ (∀ e, sum_rows rows acc ≠ Raise e)
  ∧ (∀ env cat b s eff n,
       mysqlGetOptions cat = Ok s ->
       effective_query s = Some eff ->
       env_alloc env = true ->
       env_accepts env s = true ->
       env_executes env ("EXPLAIN " +:+ eff) = true ->
       env_result env ("EXPLAIN " +:+ eff) = Some (n, rows) ->
       (Forall has_rows_field rows -> ∃ plan b', mysqlPlanForeignScan env cat b = (Ok plan, b'))
       ∧ (¬ Forall has_rows_field rows -> ∃ f b', mysqlPlanForeignScan env cat b = (Fault f, b'))).
Proof.
  split; [apply sum_rows_defined|]. split; [apply sum_rows_fault|]. split.
  - revert acc. induction rows as [|row rows IH]; intros acc e; cbn; [done|].
    destruct (row !! 8%nat) as [[f|]|]; [apply IH|done..].
  - intros env cat b s eff n Hopt Heff Halloc Hacc Hexec Hres. split; intros Hrows.
    + destruct (mysqlGetOptions_address _ _ Hopt) as [address Haddr].
      do 2 eexists. by eapply plan_returns.
    + by eapply plan_faults.
Qed.

End PlanTheorems.

(** The probe of the table [orders] against a local server whose
    EXPLAIN reports 120 rows: startup cost 10, 120 rows, total 130. *)
Lemma plan_of_orders :
  fst (mysqlPlanForeignScan (H := integral)
         (server true true (Some (10%nat, [explain_row "orders" "120"]))) orders (fresh []))
  = Ok (mkPlan (H := integral) 10 130 120 120).
Proof. reflexivity. Qed.

Module ScanFacts.

Ltac unfold_scan :=
  cbv [set_fdw_state set_slot get_festate update_festate ExecClearTuple store_virtual_tuple
       set_result set_conn set_query_buf set_num_fields].

Lemma begin_returns env cat b s eff :
  mysqlGetOptions cat = Ok s ->
  effective_query s = Some eff ->
  env_alloc env = true ->
  env_accepts env s = true ->
  mysqlBeginForeignScan env cat b
  = (Ok tt,
     mkBackend (<[next_conn b := None]> (conns b)) (S (next_conn b)) (sent b) (log b)
               (mkNode (rd_att (node b)) (ss_ScanTupleSlot (node b))
                       (Some (mkState (Some (next_conn b)) None (Some eff) 0)))).
Proof.
  intros Hopt Heff Halloc Hacc.
  unfold mysqlBeginForeignScan. unfold_scan. unfold_M.
  rewrite Hopt, Halloc. settle. rewrite Hacc. settle.
  rewrite (scan_query_effective _ _ _ Heff). settle.
  reflexivity.
Qed.

(** What [mysqlBeginForeignScan] leaves when it does not return: an
    error of the resolver, or a connection object that was obtained and,
    the connection refused, is still held. *)
Lemma begin_outcomes env cat b r b' :
  mysqlBeginForeignScan env cat b = (r, b') ->
  (∃ s eff, mysqlGetOptions cat = Ok s ∧ effective_query s = Some eff
            ∧ r = Ok tt
            ∧ fdw_state (node b') = Some (mkState (Some (next_conn b)) None (Some eff) 0)
            ∧ conns b' = <[next_conn b := None]> (conns b))
  ∨ (∃ e, r = Raise e ∧ node b' = node b
          ∧ (conns b' = conns b ∨ conns b' = <[next_conn b := None]> (conns b))).
Proof.
  destruct (mysqlGetOptions cat) as [s|e|f] eqn:Hopt.
  - destruct (mysqlGetOptions_effective _ _ Hopt) as [eff Heff].
    destruct (env_alloc env) eqn:Halloc; [destruct (env_accepts env s) eqn:Hacc|].
    + rewrite (begin_returns _ _ _ _ _ Hopt Heff Halloc Hacc). intros [= <- <-].
      left. eauto 10.
    + unfold mysqlBeginForeignScan. unfold_scan. unfold_M.
      rewrite Hopt, Halloc. settle. rewrite Hacc. settle.
      intros [= <- <-]. right. eauto.
    + unfold mysqlBeginForeignScan. unfold_scan. unfold_M.
      rewrite Hopt, Halloc. settle.
      intros [= <- <-]. right. eauto.
  - unfold mysqlBeginForeignScan. unfold_M. rewrite Hopt.
    intros [= <- <-]. right. eauto.
  - exfalso. revert Hopt. rewrite mysqlGetOptions_resolve. unfold resolve.
    by repeat case_match.
Qed.

End ScanFacts.

Import ScanFacts.

(** The statements a plan invocation passes to the server: none, or the
    probe alone. *)
Lemma plan_sends_probe `{Double} env cat b s eff r b' :
  mysqlGetOptions cat = Ok s ->
  effective_query s = Some eff ->
  mysqlPlanForeignScan env cat b = (r, b') ->
  sent b' = sent b ∨ sent b' = ("EXPLAIN " +:+ eff) :: sent b.
Proof.
  intros Hopt Heff.
  destruct (mysqlGetOptions_address _ _ Hopt) as [address Haddr].
  unfold mysqlPlanForeignScan. unfold_M.
  rewrite Hopt, Haddr.
  destruct (env_alloc env); settle; [|intros [= <- <-]; auto].
  destruct (env_accepts env s); settle; [|intros [= <- <-]; auto].
  rewrite (explain_query_effective _ _ _ Heff). settle.
  destruct (env_executes env _); settle; [|intros [= <- <-]; auto].
  destruct (env_result env _) as [[n rows]|]; settle; [|intros [= <- <-]; auto].
  cbn [res_cursor res_rows].
  destruct (sum_rows _ _); settle; intros [= <- <-]; auto.
Qed.

(** The statement a plan invocation has passed to the server once the
    connection was accepted, whatever the server then answers. *)
Lemma plan_sends_probe_accepted `{Double} env cat b s eff :
  mysqlGetOptions cat = Ok s ->
  effective_query s = Some eff ->
  env_alloc env = true ->
  env_accepts env s = true ->
  sent (snd (mysqlPlanForeignScan env cat b)) = ("EXPLAIN " +:+ eff) :: sent b.
Proof.
  intros Hopt Heff Halloc Hacc.
  destruct (mysqlGetOptions_address _ _ Hopt) as [address Haddr].
  unfold mysqlPlanForeignScan. unfold_M.
  rewrite Hopt, Haddr, Halloc. settle. rewrite Hacc. settle.
  rewrite (explain_query_effective _ _ _ Heff). settle.
  destruct (env_executes env _); settle; [|reflexivity].
  destruct (env_result env _) as [[n rows]|]; settle; [|reflexivity].
  cbn [res_cursor res_rows].
  destruct (sum_rows _ _); settle; reflexivity.
Qed.

(** C6: the query of a scan is the [query] option as it stands when
    there is one, and [SELECT * FROM table] when there is a [table]
    option instead.  Against a server that accepts the connection,
    [mysqlBeginForeignScan] returns with that query stored for the scan
    and no result yet, and a plan invocation sends one statement, that
    query after [EXPLAIN ]; no plan invocation sends anything else. *)
Theorem effective_query_and_probe (cat : Catalog) (s : svr) :
  mysqlGetOptions cat = Ok s ->
  ∃ eff,
    (∀ q, svr_query s = Some q -> eff = q)
    ∧ (∀ t, svr_query s = None -> svr_table s = Some t -> eff = "SELECT * FROM " +:+ t)
    ∧ (∀ b, scan_query s b = (Ok eff, b))
    ∧ (∀ b, explain_query s b = (Ok ("EXPLAIN " +:+ eff), b))
    ∧ (∀ env b b', mysqlBeginForeignScan env cat b = (Ok tt, b') ->
         ∃ f, fdw_state (node b') = Some f ∧ query f = Some eff)
    ∧ (∀ (D : Double) env b r b', mysqlPlanForeignScan env cat b = (r, b') ->
         sent b' = sent b ∨ sent b' = ("EXPLAIN " +:+ eff) :: sent b)
    ∧ (∀ env b, env_alloc env = true -> env_accepts env s = true ->
         mysqlBeginForeignScan env cat b
         = (Ok tt,
            mkBackend (<[next_conn b := None]> (conns b)) (S (next_conn b)) (sent b) (log b)
                      (mkNode (rd_att (node b)) (ss_ScanTupleSlot (node b))
                              (Some (mkState (Some (next_conn b)) None (Some eff) 0)))))
    ∧ (∀ (D : Double) env b, env_alloc env = true -> env_accepts env s = true ->
         sent (snd (mysqlPlanForeignScan env cat b)) = ("EXPLAIN " +:+ eff) :: sent b).
Proof.
  intros Hopt. destruct (mysqlGetOptions_effective _ _ Hopt) as [eff Heff].
  exists eff. repeat split.
  - intros q Hq. unfold effective_query in Heff. rewrite Hq in Heff. congruence.
  - intros t Hq Ht. unfold effective_query in Heff. rewrite Hq, Ht in Heff. congruence.
  - intros b. by apply scan_query_effective.
  - intros b. by apply explain_query_effective.
  - intros env b b' Hb.
    destruct (begin_outcomes _ _ _ _ _ Hb) as [(s' & eff' & Hs' & He' & _ & Hf & _)|(e & ? & _)];
      [|done].
    rewrite Hopt in Hs'. injection Hs' as <-. rewrite Heff in He'. injection He' as <-.
    eauto.
  - intros D env b r b'. by eapply plan_sends_probe.
  - intros env b Halloc Hacc. by apply (begin_returns env cat b s eff).
  - intros D env b Halloc Hacc. by apply (plan_sends_probe_accepted env cat b s eff).
Qed.

Lemma effective_query_and_probe_witness :
  (mysqlBeginForeignScan (server true true None) orders (fresh [int4_column])
   = (Ok tt,
      mkBackend (<[0%nat := None]> ∅) 1%nat [] []
                (mkNode [int4_column] empty_slot
                        (Some (mkState (Some 0%nat) None (Some "SELECT * FROM orders") 0))))
   ∧ sent (snd (mysqlPlanForeignScan (H := integral) (server true true None) orders
                  (fresh [int4_column])))
     = ["EXPLAIN SELECT * FROM orders"])
  ∧ (mysqlBeginForeignScan (server true false None)
       (mkCatalog [mkDef "query" "SELECT id FROM t"] [] []) (fresh [int4_column])
     = (Ok tt,
        mkBackend (<[0%nat := None]> ∅) 1%nat [] []
                  (mkNode [int4_column] empty_slot
                          (Some (mkState (Some 0%nat) None (Some "SELECT id FROM t") 0))))
     ∧ sent (snd (mysqlPlanForeignScan (H := integral) (server true false None)
                    (mkCatalog [mkDef "query" "SELECT id FROM t"] [] []) (fresh [int4_column])))
       = ["EXPLAIN SELECT id FROM t"]).
Proof.
  split.
  - destruct (effective_query_and_probe orders
                (mkSvr (Some "127.0.0.1") 3306 None None None None (Some "orders")) eq_refl)
      as (eff & _ & Htable & _ & _ & _ & _ & Hbegin & Hplan).
    rewrite (Htable "orders" eq_refl eq_refl) in Hbegin, Hplan.
    split.
    + exact (Hbegin (server true true None) (fresh [int4_column]) eq_refl eq_refl).
    + exact (Hplan integral (server true true None) (fresh [int4_column]) eq_refl eq_refl).
  - destruct (effective_query_and_probe (mkCatalog [mkDef "query" "SELECT id FROM t"] [] [])
                (mkSvr (Some "127.0.0.1") 3306 None None None (Some "SELECT id FROM t") None)
                eq_refl)
      as (eff & Hquery & _ & _ & _ & _ & _ & Hbegin & Hplan).
    rewrite (Hquery "SELECT id FROM t" eq_refl) in Hbegin, Hplan.
    split.
    + exact (Hbegin (server true false None) (fresh [int4_column]) eq_refl eq_refl).
    + exact (Hplan integral (server true false None) (fresh [int4_column]) eq_refl eq_refl).
Defined.

Section PlanExits.
Context `{Double}.

(** The exit of the probe when the server refuses the connection: the
    error leaves with the connection object still held. *)
Lemma plan_connect_refused env cat b s :
  mysqlGetOptions cat = Ok s ->
  env_alloc env = true ->
  env_accepts env s = false ->
  mysqlPlanForeignScan env cat b
  = (Raise (connect_failed (env_error env)),
     mkBackend (<[next_conn b := None]> (conns b)) (S (next_conn b)) (sent b) (log b) (node b)).
Proof.
  intros Hopt Halloc Hacc.
  destruct (mysqlGetOptions_address _ _ Hopt) as [address Haddr].
  unfold mysqlPlanForeignScan. unfold_M.
  rewrite Hopt, Haddr, Halloc. settle. rewrite Hacc. settle. reflexivity.
Qed.

(** The exit when the server refuses the statement: the connection
    object is closed before the error leaves. *)
Lemma plan_query_refused env cat b s eff :
  mysqlGetOptions cat = Ok s ->
  effective_query s = Some eff ->
  env_alloc env = true ->
  env_accepts env s = true ->
  env_executes env ("EXPLAIN " +:+ eff) = false ->
  mysqlPlanForeignScan env cat b
  = (Raise (query_failed (env_error env)),
     mkBackend (delete (next_conn b) (<[next_conn b := None]> (conns b)))
               (S (next_conn b)) (("EXPLAIN " +:+ eff) :: sent b) (log b) (node b)).
Proof.
  intros Hopt Heff Halloc Hacc Hexec.
  destruct (mysqlGetOptions_address _ _ Hopt) as [address Haddr].
  unfold mysqlPlanForeignScan. unfold_M.
  rewrite Hopt, Haddr, Halloc. settle. rewrite Hacc. settle.
  rewrite (explain_query_effective _ _ _ Heff). settle.
  rewrite Hexec. settle. reflexivity.
Qed.

(** The exit when the statement ran and no result set came back. *)
Lemma plan_result_refused env cat b s eff :
  mysqlGetOptions cat = Ok s ->
  effective_query s = Some eff ->
  env_alloc env = true ->
  env_accepts env s = true ->
  env_executes env ("EXPLAIN " +:+ eff) = true ->
  env_result env ("EXPLAIN " +:+ eff) = None ->
  mysqlPlanForeignScan env cat b
  = (Raise (query_failed (env_error env)),
     mkBackend (delete (next_conn b)
                  (<[next_conn b := Some ("EXPLAIN " +:+ eff)]> (<[next_conn b := None]> (conns b))))
               (S (next_conn b)) (("EXPLAIN " +:+ eff) :: sent b) (log b) (node b)).
Proof.
  intros Hopt Heff Halloc Hacc Hexec Hres.
  destruct (mysqlGetOptions_address _ _ Hopt) as [address Haddr].
  unfold mysqlPlanForeignScan. unfold_M.
  rewrite Hopt, Haddr, Halloc. settle. rewrite Hacc. settle.
  rewrite (explain_query_effective _ _ _ Heff). settle.
  rewrite Hexec. settle. rewrite Hres. settle. reflexivity.
Qed.

End PlanExits.

(** C3: the probe and the start of a scan against a server that refuses
    the connection: the error is raised and the connection object
    obtained from [mysql_init] is still held, where the exit for a
    refused statement closes it.  An error of an input function in the
    middle of a row leaves the connection held as well. *)
Theorem connect_failure_keeps_the_session :
  mysqlPlanForeignScan (H := integral) (server false true None) orders (fresh [])
  = (Raise (connect_failed "server said no"),
     mkBackend (<[0%nat := None]> ∅) 1%nat [] [] (node (fresh [])))
  ∧ mysqlBeginForeignScan (server false true None) orders (fresh [])
    = (Raise (connect_failed "server said no"),
       mkBackend (<[0%nat := None]> ∅) 1%nat [] [] (node (fresh [])))
  ∧ conns (snd (mysqlPlanForeignScan (H := integral) (server false true None) orders (fresh [])))
      !! 0%nat = Some None
  ∧ conns (snd (mysqlPlanForeignScan (H := integral) (server true false None) orders (fresh [])))
      !! 0%nat = None
  ∧ (∃ e, fst (first_row (server true true (Some (1%nat, [[Some ""]]))) [int4_column]) = Raise e)
  ∧ conns (snd (first_row (server true true (Some (1%nat, [[Some ""]]))) [int4_column]))
      !! 0%nat = Some (Some "SELECT * FROM orders").
Proof. repeat split; try (vm_compute; reflexivity). eexists. vm_compute. reflexivity. Qed.

Module SessionFacts.

Lemma begin_session_invariant env cat b r b' :
  session_invariant b ->
  mysqlBeginForeignScan env cat b = (r, b') ->
  session_invariant b'.
Proof.
  intros Hinv Hb f h.
  destruct (begin_outcomes _ _ _ _ _ Hb) as [(s & eff & _ & _ & _ & Hf & Hc)|(e & _ & Hn & Hc)].
  - rewrite Hf, Hc. intros [= <-] [= <-]. by rewrite lookup_insert_eq.
  - rewrite Hn. intros Hf Hh. specialize (Hinv f h Hf Hh).
    destruct Hc as [-> | ->]; [done|].
    destruct (decide (next_conn b = h)) as [->|Hne].
    + by rewrite lookup_insert_eq.
    + by rewrite lookup_insert_ne.
Qed.

Lemma rescan_session_invariant b r b' :
  session_invariant b ->
  mysqlReScanForeignScan b = (r, b') ->
  session_invariant b'.
Proof.
  intros Hinv. unfold mysqlReScanForeignScan. unfold_scan. unfold_M.
  destruct b as [c nx se lg [att slot [[c0 r0 q0 n0]|]]]; settle; [|by intros [= <- <-]].
  destruct r0 as [r0|]; settle; intros [= <- <-]; [|done].
  intros f h. cbn. intros [= <-]. cbn. intros Hc. by apply (Hinv _ h eq_refl).
Qed.

Lemma end_session_invariant b r b' :
  session_invariant b ->
  mysqlEndForeignScan b = (r, b') ->
  session_invariant b'.
Proof.
  intros Hinv. unfold mysqlEndForeignScan. unfold_scan. unfold_M.
  destruct b as [c nx se lg [att slot [[c0 r0 q0 n0]|]]]; settle; [|by intros [= <- <-]].
  assert (∀ h, c0 = Some h -> is_Some (c !! h)) as Hlive by (intros h; by apply (Hinv _ h eq_refl)).
  destruct r0 as [r0|]; settle; destruct c0 as [h0|]; settle.
  all: try (destruct (Hlive h0 eq_refl) as [last Hlast]; rewrite Hlast; settle).
  all: destruct q0; settle; intros [= <- <-]; intros f h; cbn; by intros [= <-].
Qed.

(** After [mysqlEndForeignScan] returned, the state holds no connection,
    no result and no query, and ending again changes nothing. *)
Lemma end_twice b b' :
  session_invariant b ->
  mysqlEndForeignScan b = (Ok tt, b') ->
  mysqlEndForeignScan b' = (Ok tt, b').
Proof.
  intros Hinv. unfold mysqlEndForeignScan. unfold_scan. unfold_M.
  destruct b as [c nx se lg [att slot [[c0 r0 q0 n0]|]]]; settle; [|by intros [= <-]].
  assert (∀ h, c0 = Some h -> is_Some (c !! h)) as Hlive by (intros h; by apply (Hinv _ h eq_refl)).
  destruct r0 as [r0|]; settle; destruct c0 as [h0|]; settle.
  all: try (destruct (Hlive h0 eq_refl) as [last Hlast]; rewrite Hlast; settle).
  all: destruct q0; settle; intros [= <-]; settle; reflexivity.
Qed.

End SessionFacts.

Import SessionFacts.


Module FrameFacts.

Lemma set_log_twice l l' b : set_log l' (set_log l b) = set_log l' b.
Proof. reflexivity. Qed.

Lemma log_only_ret {A} (a : A) : log_only (mret a).
Proof. intros b. exists (log b). by destruct b. Qed.

Lemma log_only_raise {A} e : log_only (raise (A := A) e).
Proof. intros b. exists (log b). by destruct b. Qed.

Lemma log_only_fault {A} f : log_only (fault (A := A) f).
Proof. intros b. exists (log b). by destruct b. Qed.

Lemma log_only_lift {A} (o : outcome A) : log_only (lift o).
Proof. intros b. exists (log b). by destruct b. Qed.

Lemma log_only_report l e : log_only (report l e).
Proof. intros b. by eexists. Qed.

Lemma log_only_bind {A B} (m : M A) (k : A -> M B) :
  log_only m -> (∀ a, log_only (k a)) -> log_only (m ≫= k).
Proof.
  intros Hm Hk b. unfold mbind, M_bind.
  destruct (Hm b) as [l Hl]. destruct (m b) as [[a|e|f] b1]; cbn in Hl; subst b1.
  - destruct (Hk a (set_log l b)) as [l' Hl']. exists l'. by rewrite Hl'.
  - by exists l.
  - by exists l.
Qed.

Ltac frame :=
  repeat (intros; cbn beta;
          match goal with
          | |- log_only (mbind _ _) => apply log_only_bind
          | |- log_only (mret _) => apply log_only_ret
          | |- log_only (raise _) => apply log_only_raise
          | |- log_only (fault _) => apply log_only_fault
          | |- log_only (lift _) => apply log_only_lift
          | |- log_only (report _ _) => apply log_only_report
          | |- log_only (if ?c then _ else _) => destruct c
          | |- log_only (match ?x with _ => _ end) => destruct x
          end).

Lemma log_only_store {A} (a : list (option A)) y v : log_only (store a y v).
Proof. unfold store. frame. Qed.

Lemma log_only_InputFunctionCall a str : log_only (InputFunctionCall a str).
Proof. unfold InputFunctionCall. frame. Qed.

Lemma log_only_mysqlVerifymbstr env mbstr len : log_only (mysqlVerifymbstr env mbstr len).
Proof. unfold mysqlVerifymbstr. frame. Qed.

Lemma log_only_while_dropped attrs_y y dvalues nulls :
  log_only (while_dropped attrs_y y dvalues nulls).
Proof.
  revert y dvalues nulls. induction attrs_y as [|a rest IH]; intros y dvalues nulls; cbn.
  - apply log_only_fault.
  - destruct (attisdropped a); [|apply log_only_ret].
    frame; try apply log_only_store. apply IH.
Qed.

Lemma log_only_convert_field env attrs row lengths x y dvalues nulls :
  log_only (convert_field env attrs row lengths x y dvalues nulls).
Proof.
  unfold convert_field.
  apply log_only_bind; [apply log_only_while_dropped|].
  intros [[y' dv] nl].
  frame; first [apply log_only_store | apply log_only_InputFunctionCall
               | apply log_only_mysqlVerifymbstr].
Qed.

Lemma log_only_for_fields env attrs row lengths todo x y dvalues nulls :
  log_only (for_fields env attrs row lengths todo x y dvalues nulls).
Proof.
  revert x y dvalues nulls. induction todo as [|todo IH]; intros x y dvalues nulls; cbn.
  - apply log_only_ret.
  - apply log_only_bind; [apply log_only_convert_field|].
    intros [[y' dv] nl]. apply IH.
Qed.

End FrameFacts.

Import FrameFacts.

Module IterateFacts.

Lemma mysqlVerifymbstr_invalid env mbstr len b :
  pg_verifymbstr env mbstr len = false ->
  mysqlVerifymbstr env mbstr len b
  = (Ok false,
     set_log ((WARNING, invalid_byte_sequence (GetDatabaseEncodingName env) (c_str mbstr)) :: log b) b).
Proof. intros Hv. unfold mysqlVerifymbstr. rewrite Hv. reflexivity. Qed.

Lemma mysqlVerifymbstr_valid env mbstr len b :
  pg_verifymbstr env mbstr len = true -> mysqlVerifymbstr env mbstr len b = (Ok true, b).
Proof. intros Hv. unfold mysqlVerifymbstr. rewrite Hv. reflexivity. Qed.

Lemma store_in_bounds {A} (a : list (option A)) y v b :
  (y < length a)%nat -> store a y v b = (Ok (<[y := Some v]> a), b).
Proof. intros Hy. unfold store. by rewrite (proj2 (Nat.ltb_lt _ _) Hy). Qed.

Lemma store_out_of_bounds {A} (a : list (option A)) y v b :
  (length a <= y)%nat -> store a y v b = (Fault OutOfBounds, b).
Proof. intros Hy. unfold store. by rewrite (proj2 (Nat.ltb_ge _ _) Hy). Qed.

(** A field of a string column whose bytes the encoding rejects: no
    error, a warning that carries the bytes themselves, and a null. *)
Lemma convert_field_invalid_encoding env attrs (row : MYSQL_ROW) x y dvalues nulls b a bytes :
  attrs !! y = Some a ->
  attisdropped a = false ->
  typcategory a = TYPCATEGORY_STRING ->
  row !! x = Some (Some bytes) ->
  String.length bytes ≠ 0%nat ->
  pg_verifymbstr env bytes (String.length bytes) = false ->
  (y < length dvalues)%nat ->
  (y < length nulls)%nat ->
  convert_field env attrs row (mysql_fetch_lengths row) x y dvalues nulls b
  = (Ok (y, <[y := Some Datum0]> dvalues, <[y := Some true]> nulls),
     set_log ((WARNING, invalid_byte_sequence (GetDatabaseEncodingName env) (c_str bytes)) :: log b) b).
Proof.
  intros Ha Hlive Hcat Hrow Hlen Hbad Hdv Hnl.
  unfold convert_field. rewrite (drop_S _ _ _ Ha). cbn [while_dropped]. rewrite Hlive.
  unfold mysql_fetch_lengths. unfold_M.
  rewrite Hrow, list_lookup_fmap, Hrow, Ha. cbn [fmap option_fmap option_map].
  rewrite (proj2 (Nat.eqb_neq _ _) Hlen), Hcat.
  change (Ascii.eqb TYPCATEGORY_STRING TYPCATEGORY_STRING) with true. cbv beta iota.
  rewrite (mysqlVerifymbstr_invalid _ _ _ _ Hbad). cbn [negb].
  rewrite !store_in_bounds by done.
  reflexivity.
Qed.

End IterateFacts.

Import IterateFacts.

Module BindFacts.

Lemma bind_ok {A B} (m : M A) (k : A -> M B) b a b1 :
  m b = (Ok a, b1) -> (m ≫= k) b = k a b1.
Proof. intros Hm. unfold mbind, M_bind. by rewrite Hm. Qed.

Lemma bind_raise {A B} (m : M A) (k : A -> M B) b e b1 :
  m b = (Raise e, b1) -> (m ≫= k) b = (Raise e, b1).
Proof. intros Hm. unfold mbind, M_bind. by rewrite Hm. Qed.

Lemma bind_fault {A B} (m : M A) (k : A -> M B) b f b1 :
  m b = (Fault f, b1) -> (m ≫= k) b = (Fault f, b1).
Proof. intros Hm. unfold mbind, M_bind. by rewrite Hm. Qed.

Lemma bind_ok_inv {A B} (m : M A) (k : A -> M B) b c b' :
  (m ≫= k) b = (Ok c, b') -> ∃ a b1, m b = (Ok a, b1) ∧ k a b1 = (Ok c, b').
Proof.
  unfold mbind, M_bind. destruct (m b) as [[a|e|f] b1]; [eauto|discriminate..].
Qed.

End BindFacts.

Import BindFacts.

Module LengthFacts.

Lemma store_length {A} (a : list (option A)) y v b a' b' :
  store a y v b = (Ok a', b') -> length a' = length a.
Proof.
  unfold store. destruct (y <? length a)%nat; [|discriminate].
  intros [= <- <-]. apply length_insert.
Qed.

Lemma while_dropped_length attrs_y y dvalues nulls b y' dvalues' nulls' b' :
  while_dropped attrs_y y dvalues nulls b = (Ok (y', dvalues', nulls'), b') ->
  length dvalues' = length dvalues ∧ length nulls' = length nulls.
Proof.
  revert y dvalues nulls b. induction attrs_y as [|a rest IH]; intros y dvalues nulls b; cbn.
  - discriminate.
  - destruct (attisdropped a); [|by intros [= <- <- <- <-]].
    intros Hw.
    apply bind_ok_inv in Hw as ([] & b1 & _ & Hw).
    apply bind_ok_inv in Hw as (dv & b2 & Hdv & Hw).
    apply bind_ok_inv in Hw as (nl & b3 & Hnl & Hw).
    apply IH in Hw as [-> ->].
    by rewrite (store_length _ _ _ _ _ _ Hdv), (store_length _ _ _ _ _ _ Hnl).
Qed.

Lemma convert_field_length env attrs row lengths x y dvalues nulls b y' dvalues' nulls' b' :
  convert_field env attrs row lengths x y dvalues nulls b = (Ok (y', dvalues', nulls'), b') ->
  length dvalues' = length dvalues ∧ length nulls' = length nulls.
Proof.
  unfold convert_field. intros Hc.
  apply bind_ok_inv in Hc as ([[y1 dv1] nl1] & b1 & Hw & Hc).
  apply while_dropped_length in Hw as [<- <-].
  apply bind_ok_inv in Hc as (field & b2 & _ & Hc).
  destruct field as [bytes|].
  - apply bind_ok_inv in Hc as (len & b3 & _ & Hc).
    apply bind_ok_inv in Hc as (a & b4 & _ & Hc).
    destruct (len =? 0)%nat.
    + apply bind_ok_inv in Hc as (nl & b5 & Hnl & Hc).
      apply bind_ok_inv in Hc as (d & b6 & _ & Hc).
      apply bind_ok_inv in Hc as (dv & b7 & Hdv & Hc).
      injection Hc as <- <- <- <-.
      by rewrite (store_length _ _ _ _ _ _ Hdv), (store_length _ _ _ _ _ _ Hnl).
    + apply bind_ok_inv in Hc as (bad & b5 & _ & Hc).
      destruct bad.
      * apply bind_ok_inv in Hc as (nl & b6 & Hnl & Hc).
        apply bind_ok_inv in Hc as (dv & b7 & Hdv & Hc).
        injection Hc as <- <- <- <-.
        by rewrite (store_length _ _ _ _ _ _ Hdv), (store_length _ _ _ _ _ _ Hnl).
      * apply bind_ok_inv in Hc as (nl & b6 & Hnl & Hc).
        apply bind_ok_inv in Hc as (d & b7 & _ & Hc).
        apply bind_ok_inv in Hc as (dv & b8 & Hdv & Hc).
        injection Hc as <- <- <- <-.
        by rewrite (store_length _ _ _ _ _ _ Hdv), (store_length _ _ _ _ _ _ Hnl).
  - apply bind_ok_inv in Hc as (dv & b3 & Hdv & Hc).
    apply bind_ok_inv in Hc as (nl & b4 & Hnl & Hc).
    injection Hc as <- <- <- <-.
    by rewrite (store_length _ _ _ _ _ _ Hdv), (store_length _ _ _ _ _ _ Hnl).
Qed.

(** The arrays the loop fills keep the length they were allocated with. *)
Lemma for_fields_length env attrs row lengths todo x y dvalues nulls b dvalues' nulls' b' :
  for_fields env attrs row lengths todo x y dvalues nulls b = (Ok (dvalues', nulls'), b') ->
  length dvalues' = length dvalues ∧ length nulls' = length nulls.
Proof.
  revert x y dvalues nulls b. induction todo as [|todo IH]; intros x y dvalues nulls b; cbn.
  - by intros [= <- <- <-].
  - intros Hf. apply bind_ok_inv in Hf as ([[y1 dv1] nl1] & b1 & Hc & Hf).
    apply convert_field_length in Hc as [<- <-]. by apply IH in Hf.
Qed.

End LengthFacts.

Import LengthFacts.

Module RowFacts.

Lemma execute_query_done env b f r :
  fdw_state (node b) = Some f -> result f = Some r -> execute_query env b = (Ok tt, b).
Proof.
  intros Hf Hr. unfold execute_query. unfold_scan. unfold_M. by rewrite Hf, Hr.
Qed.

Lemma ExecClearTuple_clears b : ExecClearTuple b = (Ok tt, clear_slot b).
Proof. reflexivity. Qed.

Lemma next_tuple_exhausted env meta b f r :
  fdw_state (node b) = Some f ->
  result f = Some r ->
  res_rows r !! res_cursor r = None ->
  next_tuple env meta b = (Ok tt, b).
Proof.
  intros Hf Hr Hrow. unfold next_tuple, mysql_fetch_row. unfold_scan. unfold_M.
  by rewrite Hf, Hr, Hrow.
Qed.

Lemma next_tuple_row env meta b f r row b' :
  fdw_state (node b) = Some f ->
  result f = Some r ->
  res_rows r !! res_cursor r = Some row ->
  next_tuple env meta b = (Ok tt, b') ->
  ∃ dvalues nulls,
    ss_ScanTupleSlot (node b') = mkSlot false dvalues nulls
    ∧ length dvalues = num_fields f
    ∧ length nulls = num_fields f
    ∧ fdw_state (node b')
      = Some (set_result (Some (mkRes (res_fields r) (res_rows r) (S (res_cursor r)))) f)
    ∧ conns b' = conns b.
Proof.
  destruct b as [c nx se lg [att slot fs]]. cbn [node fdw_state].
  intros -> Hr Hrow. unfold next_tuple, mysql_fetch_row. unfold_scan. unfold_M. settle.
  rewrite Hr, Hrow. settle.
  match goal with |- context [for_fields ?e ?m ?rw ?ls ?n ?x ?y ?dv ?nl ?st] =>
    destruct (log_only_for_fields e m rw ls n x y dv nl st) as [l Hl];
    destruct (for_fields e m rw ls n x y dv nl st) as [[[dv' nl']|e'|ft] b2] eqn:Hfor
  end; [|discriminate..].
  cbn in Hl. subst b2. settle. intros [= <-]. settle.
  apply for_fields_length in Hfor as [Hdv Hnl].
  rewrite length_replicate in Hdv. rewrite length_replicate in Hnl.
  exists dv', nl'. by destruct f.
Qed.

(** One call of [mysqlIterateForeignScan] on a scan whose query was
    executed: at the end of the result the slot comes back empty and
    nothing else changes; before the end, a call that returns hands out
    a tuple whose arrays have [num_fields] cells, and the cursor has
    moved by one row. *)
Lemma iterate_one_row env b f r :
  fdw_state (node b) = Some f ->
  result f = Some r ->
  (res_rows r !! res_cursor r = None ->
     mysqlIterateForeignScan env b = (Ok (ss_ScanTupleSlot (node (clear_slot b))), clear_slot b))
  ∧ (∀ row slot b',
       res_rows r !! res_cursor r = Some row ->
       mysqlIterateForeignScan env b = (Ok slot, b') ->
       tts_isempty slot = false
       ∧ length (tts_values slot) = num_fields f
       ∧ length (tts_isnull slot) = num_fields f
       ∧ fdw_state (node b')
         = Some (set_result (Some (mkRes (res_fields r) (res_rows r) (S (res_cursor r)))) f)
       ∧ conns b' = conns b).
Proof.
  intros Hf Hr. unfold mysqlIterateForeignScan.
  rewrite (bind_ok get _ b b b eq_refl).
  rewrite (bind_ok _ _ _ _ _ (execute_query_done env b f r Hf Hr)).
  rewrite (bind_ok _ _ _ _ _ (ExecClearTuple_clears b)).
  split.
  - intros Hrow.
    by rewrite (bind_ok _ _ _ _ _ (next_tuple_exhausted env _ (clear_slot b) f r Hf Hr Hrow)).
  - intros row slot b' Hrow Hit.
    apply bind_ok_inv in Hit as ([] & b1 & Hnext & Hit).
    injection Hit as <- <-.
    destruct (next_tuple_row env _ (clear_slot b) f r row b1 Hf Hr Hrow Hnext)
      as (dv & nl & -> & ? & ? & ? & ?).
    done.
Qed.

End RowFacts.

Import RowFacts.

(** C1: the first row of a scan over a relation with a dropped column.
    With the dropped column last and one remote field, the tuple handed
    out has one cell, not two, and no cell for the dropped position;
    with the dropped column first, the store for the live column falls
    outside the arrays; with as many remote fields as host columns, the
    descriptor is read past its end. *)
Theorem dropped_column_is_not_padded :
  fst (first_row (server true true (Some (1%nat, [[Some "7"]; [Some "8"]])))
                 [int4_column; dropped_column])
  = Ok (mkSlot false [Some (DatumInt 7)] [Some false])
  ∧ fst (first_row (server true true (Some (1%nat, [[Some "7"]; [Some "8"]])))
                   [dropped_column; int4_column])
    = Fault OutOfBounds
  ∧ fst (first_row (server true true (Some (2%nat, [[Some "7"; Some "9"]; [Some "8"; Some "9"]])))
                   [dropped_column; int4_column])
    = Fault OutOfBounds
  ∧ fst (first_row (server true true (Some (2%nat, [[Some "7"; Some "9"]; [Some "8"; Some "9"]])))
                   [int4_column; dropped_column])
    = Fault OutOfBounds.
Proof. repeat split; vm_compute; reflexivity. Qed.

(** C2: the first two rows of a scan whose first field, of a string
    column, holds bytes the encoding rejects.  The field comes back
    null, the field after it and the next row are converted, and no
    error is raised; the warning carries the ten bytes as they are, not
    the dump [0xff] that [buf] holds. *)
Theorem encoding_warning_reports_raw_bytes :
  fst (first_row (server true true (Some (2%nat, [[Some bad_bytes; Some "ok"]; [Some "next"; Some "row"]])))
                 [text_column; text_column])
  = Ok (mkSlot false [Some Datum0; Some (DatumText "ok")] [Some true; Some false])
  ∧ log (snd (first_row (server true true (Some (2%nat, [[Some bad_bytes; Some "ok"]; [Some "next"; Some "row"]])))
                        [text_column; text_column]))
    = [(WARNING, invalid_byte_sequence "SQL_ASCII" bad_bytes)]
  ∧ invalid_byte_sequence "SQL_ASCII" bad_bytes
    ≠ invalid_byte_sequence "SQL_ASCII"
        (hex_dump (take (Nat.min (Nat.min 1 (String.length bad_bytes)) 8)
                        (list_ascii_of_string bad_bytes)))
  ∧ hex_dump (take (Nat.min (Nat.min 1 (String.length bad_bytes)) 8)
                   (list_ascii_of_string bad_bytes)) = "0xff"
  ∧ String.length bad_bytes = 10%nat
  ∧ fst (mysqlIterateForeignScan
           (server true true (Some (2%nat, [[Some bad_bytes; Some "ok"]; [Some "next"; Some "row"]])))
           (snd (first_row (server true true (Some (2%nat, [[Some bad_bytes; Some "ok"]; [Some "next"; Some "row"]])))
                           [text_column; text_column])))
    = Ok (mkSlot false [Some (DatumText "next"); Some (DatumText "row")] [Some false; Some false]).
Proof.
  repeat split; try (vm_compute; reflexivity).
  vm_compute. discriminate.
Qed.

Module IterateSessionFacts.

(** When the block that executes the query returns, the state has a
    result, and the connection it points to is still held. *)
Lemma execute_query_returns env b b' :
  session_invariant b ->
  execute_query env b = (Ok tt, b') ->
  session_invariant b' ∧ ∃ f r, fdw_state (node b') = Some f ∧ result f = Some r.
Proof.
  intros Hinv. unfold execute_query. unfold_scan. unfold_M.
  destruct b as [c nx se lg [att slot [[c0 r0 q0 n0]|]]]; settle; [|discriminate].
  destruct r0 as [r0|]; settle.
  { intros [= <-]. eauto. }
  destruct c0 as [h|]; settle; [|discriminate].
  destruct (c !! h) as [last|] eqn:Hh; settle; [|discriminate].
  destruct q0 as [q|]; settle; [|discriminate].
  destruct (env_executes env q); settle; [|rewrite Hh; settle; rewrite Hh; discriminate].
  destruct (env_result env q) as [[n rows]|]; settle; [|discriminate].
  intros [= <-]. split; [|eauto].
  intros f h'. cbn. intros [= <-] [= <-]. by rewrite lookup_insert_eq.
Qed.

Lemma clear_slot_session_invariant b : session_invariant b -> session_invariant (clear_slot b).
Proof. intros Hinv f h. apply Hinv. Qed.

(** A call of [mysqlIterateForeignScan] that returns keeps the
    connection the state points to. *)
Lemma iterate_return_session_invariant env b slot b' :
  session_invariant b ->
  mysqlIterateForeignScan env b = (Ok slot, b') ->
  session_invariant b'.
Proof.
  intros Hinv Hit. unfold mysqlIterateForeignScan in Hit.
  rewrite (bind_ok get _ b b b eq_refl) in Hit.
  apply bind_ok_inv in Hit as ([] & b1 & Hexec & Hit).
  destruct (execute_query_returns _ _ _ Hinv Hexec) as (Hinv1 & f & r & Hf & Hr).
  rewrite (bind_ok _ _ _ _ _ (ExecClearTuple_clears b1)) in Hit.
  apply bind_ok_inv in Hit as ([] & b2 & Hnext & Hit).
  injection Hit as _ <-.
  apply clear_slot_session_invariant in Hinv1.
  destruct (res_rows r !! res_cursor r) as [row|] eqn:Hrow.
  - destruct (next_tuple_row env _ (clear_slot b1) f r row b2 Hf Hr Hrow Hnext)
      as (dv & nl & _ & _ & _ & Hf2 & Hc2).
    intros f2 h. rewrite Hf2, Hc2. intros [= <-]. cbn. intros Hh.
    by apply (Hinv1 f h Hf).
  - rewrite (next_tuple_exhausted env _ (clear_slot b1) f r Hf Hr Hrow) in Hnext.
    by injection Hnext as <-.
Qed.

End IterateSessionFacts.

(** C4: a scan begun against a server that then refuses the statement,
    or gives no result set for it: the state holds its live connection
    before the first call of [mysqlIterateForeignScan]; the call
    raises, having closed the connection, and the state still points to
    it. *)
Theorem iterate_error_leaves_closed_session :
  session_invariant (begun (server true false None))
  ∧ fst (mysqlIterateForeignScan (server true false None) (begun (server true false None)))
    = Raise (query_failed "server said no")
  ∧ (fdw_state (node (snd (mysqlIterateForeignScan (server true false None)
                             (begun (server true false None))))) ≫= conn)
    = Some 0%nat
  ∧ conns (snd (mysqlIterateForeignScan (server true false None) (begun (server true false None))))
      !! 0%nat = None
  ∧ ¬ session_invariant
        (snd (mysqlIterateForeignScan (server true false None) (begun (server true false None))))
  ∧ fst (mysqlIterateForeignScan (server true true None) (begun (server true true None)))
    = Raise (query_failed "server said no")
  ∧ ¬ session_invariant
        (snd (mysqlIterateForeignScan (server true true None) (begun (server true true None)))).
Proof.
  assert (∀ b, (fdw_state (node b) ≫= conn) = Some 0%nat -> conns b !! 0%nat = None ->
               ¬ session_invariant b) as Hbroken.
  { intros b Hconn Hclosed Hinv.
    destruct (fdw_state (node b)) as [f|] eqn:Hf; [|discriminate].
    destruct (Hinv f 0%nat Hf Hconn) as [last Hlast]. congruence. }
  repeat split; try reflexivity.
  - intros f h. vm_compute. intros [= <-] [= <-]. eauto.
  - apply Hbroken; reflexivity.
  - apply Hbroken; reflexivity.
Qed.

(** * Further properties of the code *)

(** X1: the resolver, in full: it fails exactly when no entry of the
    three lists is named [table] or [query]; otherwise every option has
    the value of its last entry in the list of the table, then the
    server, then the user mapping, with 127.0.0.1 for a missing address
    and 3306 for a missing port or one that parses to 0. *)
Theorem mysqlGetOptions_last_entry_wins (cat : Catalog) :
  mysqlGetOptions cat
  = if bool_decide (supplied "table" (all_options cat) = None
                    ∧ supplied "query" (all_options cat) = None)
    then Raise table_or_query_required
    else Ok (resolved (all_options cat)).
Proof. apply mysqlGetOptions_resolved. Qed.

Lemma resolved_field name opts :
  name ∈ ["username"; "password"; "database"; "query"; "table"] ->
  svr_field name (resolved opts) = supplied name opts.
Proof.
  intros Hin. repeat (apply elem_of_cons in Hin as [->|Hin]); try reflexivity.
  by apply elem_of_nil in Hin.
Qed.

(** X2: between the three lists the later one wins, whatever list an
    option belongs to: a resolved option has the value the user mapping
    gives it, or else the one the server gives it, or else the one the
    table gives it. *)
Theorem resolver_layer_precedence (cat : Catalog) (name : string) (s : svr) :
  mysqlGetOptions cat = Ok s ->
  name ∈ ["username"; "password"; "database"; "query"; "table"] ->
  svr_field name s
  = match supplied name (f_mapping cat) with
    | Some v => Some v
    | None => match supplied name (f_server cat) with
              | Some v => Some v
              | None => supplied name (f_table cat)
              end
    end.
Proof.
  rewrite mysqlGetOptions_resolved. case_bool_decide; [discriminate|].
  intros [= <-] Hin. rewrite (resolved_field _ _ Hin).
  unfold all_options. rewrite !supplied_app.
  by destruct (supplied name (f_mapping cat)), (supplied name (f_server cat)).
Qed.

Lemma resolver_layer_precedence_witness :
  svr_field "table"
    (mkSvr (Some "127.0.0.1") 3306 None None None None (Some "archive"))
  = match supplied "table" [mkDef "table" "archive"] with
    | Some v => Some v
    | None => match supplied "table" [] with
              | Some v => Some v
              | None => supplied "table" [mkDef "table" "orders"]
              end
    end.
Proof.
  apply (resolver_layer_precedence
           (mkCatalog [mkDef "table" "orders"] [] [mkDef "table" "archive"]) "table"
           (mkSvr (Some "127.0.0.1") 3306 None None None None (Some "archive"))).
  - reflexivity.
  - rewrite !elem_of_cons. auto 10.
Defined.

Module ValidatorMoreFacts.

Import RepeatFacts.

Lemma validate_options_app catalog s (pre post : list DefElem) :
  validate_options catalog s (pre ++ post)
  = (validate_options catalog s pre ≫= fun s' => validate_options catalog s' post).
Proof.
  revert s. induction pre as [|d pre IH]; intros s; cbn; [done|].
  unfold mbind, outcome_bind. destruct (validate_option catalog s d); [apply IH|done..].
Qed.

Lemma validator_ok catalog opts :
  mysql_fdw_validator opts catalog = Ok tt <-> ∃ s, validate_options catalog svr_init opts = Ok s.
Proof.
  unfold mysql_fdw_validator, mbind, outcome_bind.
  destruct (validate_options catalog svr_init opts); split; try done; eauto.
  - by intros [s [=]].
  - by intros [s [=]].
Qed.

Lemma invalid_option_hint d catalog :
  err_hint (invalid_option d catalog)
  = Some ("Valid options in this context are: " +:+ names_for catalog).
Proof.
  unfold invalid_option, names_for, valid_names, valid_options. cbn [err_hint fold_left optcontext optname].
  destruct (Z.eqb_spec catalog ForeignServerRelationId) as [->|?]; [reflexivity|].
  destruct (Z.eqb_spec catalog UserMappingRelationId) as [->|?]; [reflexivity|].
  destruct (Z.eqb_spec catalog ForeignTableRelationId) as [->|?]; reflexivity.
Qed.

Lemma no_option_for_other_catalogs name catalog :
  catalog ≠ ForeignServerRelationId ->
  catalog ≠ UserMappingRelationId ->
  catalog ≠ ForeignTableRelationId ->
  mysqlIsValidOption name catalog = false.
Proof.
  intros H1 H2 H3. unfold mysqlIsValidOption, valid_options. cbn [existsb optcontext optname].
  rewrite (proj2 (Z.eqb_neq _ _) H1), (proj2 (Z.eqb_neq _ _) H2), (proj2 (Z.eqb_neq _ _) H3).
  reflexivity.
Qed.

(** An entry that is valid and free in the state is taken, and what
    was free before stays free, but for the entry's own name and, for
    [query] and [table], the other of the two. *)
Lemma validate_option_free catalog s d :
  mysqlIsValidOption (defname d) catalog = true ->
  free (defname d) s ->
  ∃ s', validate_option catalog s d = Ok s'
        ∧ ∀ name, name ≠ defname d ->
                  ¬ (name = "query" ∧ defname d = "table") ->
                  ¬ (name = "table" ∧ defname d = "query") ->
                  free name s -> free name s'.
Proof.
  intros Hvalid (Hseen & Hport & Hquery & Htable).
  unfold validate_option. rewrite Hvalid. cbn [negb].
  apply valid_option_names in Hvalid.
  destruct s as [a p u pw db q t]. unfold defGetString.
  repeat (apply elem_of_cons in Hvalid as [Hn|Hvalid]); [..|by apply elem_of_nil in Hvalid].
  all: rewrite Hn in *; unfold seen in Hseen; cbn in Hseen, Hport, Hquery, Htable.
  all: try (specialize (Hport eq_refl)); try (specialize (Hquery eq_refl));
       try (specialize (Htable eq_refl)); subst.
  all: unfold mbind, outcome_bind; eval_eqb; cbn -[String.eqb atoi].
  all: repeat match goal with
       | H : is_set ?o = false |- _ => destruct o; [discriminate H|clear H]
       end; cbn -[String.eqb atoi].
  all: eexists; split; [reflexivity|].
  all: intros name Hne Hqt Htq (Hs & Hp & Hq & Ht); unfold free, seen in *;
       cbn -[String.eqb] in *.
  all: repeat match goal with
       | |- context [(?x =? ?n)%string] =>
           is_var x; destruct (String.eqb_spec x n); subst; try done
       | H : context [(?x =? ?n)%string] |- _ =>
           is_var x; destruct (String.eqb_spec x n); subst; try done
       end.
  all: try (repeat split; try done; intros; done).
  all: try (exfalso; auto; fail).
Qed.

Lemma free_svr_init name : free name svr_init.
Proof.
  unfold free, seen. cbn -[String.eqb]. repeat split; try done.
  repeat case_match; done.
Qed.

Lemma validate_options_free catalog opts s :
  Forall (fun d => mysqlIsValidOption (defname d) catalog = true) opts ->
  NoDup (defname <$> opts) ->
  ¬ ("query" ∈ defname <$> opts ∧ "table" ∈ defname <$> opts) ->
  (∀ d, d ∈ opts -> free (defname d) s) ->
  ∃ s', validate_options catalog s opts = Ok s'.
Proof.
  revert s. induction opts as [|d opts IH]; intros s Hvalid Hnodup Hqt Hfree; [by eexists|].
  apply Forall_cons in Hvalid as [Hd Hvalid]. cbn in Hnodup, Hqt.
  apply NoDup_cons in Hnodup as [Hnotin Hnodup].
  destruct (validate_option_free catalog s d Hd) as (s1 & Hs1 & Hkeep).
  { apply Hfree. left. }
  cbn. unfold mbind, outcome_bind. rewrite Hs1. apply IH; [done..| |].
  - intros [Hq Ht]. apply Hqt. split; by right.
  - intros d' Hd'. apply Hkeep.
    + intros Heq. apply Hnotin. rewrite <- Heq. by apply list_elem_of_fmap_2.
    + intros [Hq Ht]. apply Hqt. split.
      * right. rewrite <- Hq. by apply list_elem_of_fmap_2.
      * rewrite <- Ht. left.
    + intros [Ht Hq]. apply Hqt. split.
      * rewrite <- Hq. left.
      * right. rewrite <- Ht. by apply list_elem_of_fmap_2.
    + apply Hfree. by right.
Qed.

(** An entry named as [d] cannot be taken once the variable of [other]
    is set, when the code tests that variable for it. *)
Lemma validate_options_blocked catalog opts s d other :
  (∀ s0 d0 s1, validate_option catalog s0 d0 = Ok s1 ->
               defname d0 = defname d -> seen other s0 = false) ->
  d ∈ opts ->
  seen other s = true ->
  ∀ s', validate_options catalog s opts ≠ Ok s'.
Proof.
  intros Htest. revert s. induction opts as [|d0 opts IH]; intros s Hin Hseen s';
    [by apply elem_of_nil in Hin|].
  cbn. unfold mbind, outcome_bind.
  destruct (validate_option catalog s d0) as [s0|e|f] eqn:Hd0; [|done..].
  destruct (validate_option_seen _ _ _ _ Hd0) as (Hmono & _ & _).
  apply elem_of_cons in Hin as [->|Hin].
  - rewrite (Htest _ _ _ Hd0 eq_refl) in Hseen. discriminate.
  - apply IH; [done|]. by apply Hmono.
Qed.

Lemma table_tests_query catalog s d s' :
  validate_option catalog s d = Ok s' -> defname d = "table" -> seen "query" s = false.
Proof.
  intros Hv Hn.
  destruct (validate_option_ok _ _ _ _ Hv)
    as [(Hn' & _)|[(Hn' & _)|[(Hn' & _)|[(Hn' & _)|[(Hn' & _)|[(Hn' & _)|(_ & Hq & _)]]]]]];
    try (rewrite Hn in Hn'; discriminate).
  unfold seen. cbn. by rewrite Hq.
Qed.

Lemma query_tests_table catalog s d s' :
  validate_option catalog s d = Ok s' -> defname d = "query" -> seen "table" s = false.
Proof.
  intros Hv Hn.
  destruct (validate_option_ok _ _ _ _ Hv)
    as [(Hn' & _)|[(Hn' & _)|[(Hn' & _)|[(Hn' & _)|[(Hn' & _)|[(_ & _ & Ht & _)|(Hn' & _)]]]]]];
    try (rewrite Hn in Hn'; discriminate).
  unfold seen. cbn. by rewrite Ht.
Qed.

Lemma validate_options_query_and_table catalog (opts : list DefElem) s dq dt :
  dq ∈ opts -> dt ∈ opts -> defname dq = "query" -> defname dt = "table" ->
  ∀ s', validate_options catalog s opts ≠ Ok s'.
Proof.
  intros Hq Ht Hnq Hnt. revert s. induction opts as [|d0 opts IH]; intros s s';
    [by apply elem_of_nil in Hq|].
  cbn. unfold mbind, outcome_bind.
  destruct (validate_option catalog s d0) as [s0|e|f] eqn:Hd0; [|done..].
  destruct (validate_option_seen _ _ _ _ Hd0) as (_ & Hset & _).
  apply elem_of_cons in Hq as [->|Hq]; apply elem_of_cons in Ht as [->|Ht].
  - rewrite Hnq in Hnt. discriminate.
  - apply (validate_options_blocked catalog opts s0 dt "query"); [|done|].
    + intros s1 d1 s2 Hv Hn. apply (table_tests_query _ _ _ _ Hv). by rewrite Hn.
    + rewrite <- Hnq. apply Hset. by rewrite Hnq.
  - apply (validate_options_blocked catalog opts s0 dq "table"); [|done|].
    + intros s1 d1 s2 Hv Hn. apply (query_tests_table _ _ _ _ Hv). by rewrite Hn.
    + rewrite <- Hnt. apply Hset. by rewrite Hnt.
  - by apply IH.
Qed.

(** The validator stops at an entry that is not valid for the catalog. *)
Lemma validator_first_invalid catalog pre post d :
  mysql_fdw_validator pre catalog = Ok tt ->
  mysqlIsValidOption (defname d) catalog = false ->
  mysql_fdw_validator (pre ++ d :: post) catalog = Raise (invalid_option d catalog).
Proof.
  intros Hpre Hd. apply validator_ok in Hpre as [s Hs].
  unfold mysql_fdw_validator. rewrite validate_options_app, Hs.
  cbn. unfold validate_option. by rewrite Hd.
Qed.

End ValidatorMoreFacts.

Import RepeatFacts ValidatorMoreFacts.

(** X3: the first option that is not valid for the catalog is
    reported: when the entries before it pass, the validator raises the
    invalid-option error for it, whatever follows, and the hint lists
    the names valid for the catalog, or none. *)
Theorem validator_reports_invalid_option (catalog : Oid) (pre post : list DefElem) (d : DefElem) :
  mysql_fdw_validator pre catalog = Ok tt ->
  mysqlIsValidOption (defname d) catalog = false ->
  mysql_fdw_validator (pre ++ d :: post) catalog = Raise (invalid_option d catalog)
  ∧ err_code (invalid_option d catalog) = ERRCODE_FDW_INVALID_OPTION_NAME
  ∧ err_hint (invalid_option d catalog)
    = Some ("Valid options in this context are: " +:+ names_for catalog).
Proof.
  intros Hpre Hd. split; [|split; [reflexivity|apply invalid_option_hint]].
  by apply validator_first_invalid.
Qed.

Lemma validator_reports_invalid_option_witness :
  mysql_fdw_validator ([mkDef "address" "db"] ++ mkDef "username" "joe" :: [mkDef "port" "1"])
                      ForeignServerRelationId
  = Raise (invalid_option (mkDef "username" "joe") ForeignServerRelationId)
  ∧ err_code (invalid_option (mkDef "username" "joe") ForeignServerRelationId)
    = ERRCODE_FDW_INVALID_OPTION_NAME
  ∧ err_hint (invalid_option (mkDef "username" "joe") ForeignServerRelationId)
    = Some ("Valid options in this context are: " +:+ names_for ForeignServerRelationId).
Proof.
  apply (validator_reports_invalid_option ForeignServerRelationId
           [mkDef "address" "db"] [mkDef "port" "1"] (mkDef "username" "joe"));
    reflexivity.
Defined.

(** X4: a catalog other than those of servers, user mappings and
    foreign tables has no valid option: there the validator accepts the
    empty list only, and answers any other with the invalid-option
    error for its first entry. *)
Theorem validator_other_catalogs (catalog : Oid) (opts : list DefElem) :
  catalog ≠ ForeignServerRelationId ->
  catalog ≠ UserMappingRelationId ->
  catalog ≠ ForeignTableRelationId ->
  mysql_fdw_validator opts catalog
  = match opts with
    | [] => Ok tt
    | d :: _ => Raise (invalid_option d catalog)
    end.
Proof.
  intros H1 H2 H3. destruct opts as [|d opts]; [reflexivity|].
  apply (validator_first_invalid catalog [] opts d); [reflexivity|].
  by apply no_option_for_other_catalogs.
Qed.

Lemma validator_other_catalogs_witness :
  mysql_fdw_validator [mkDef "address" "db"] ForeignDataWrapperRelationId
  = Raise (invalid_option (mkDef "address" "db") ForeignDataWrapperRelationId).
Proof.
  apply (validator_other_catalogs ForeignDataWrapperRelationId [mkDef "address" "db"]);
    discriminate.
Defined.

(** X5: the validator rejects a list in which an option other than the
    port is named twice, or in which both [query] and [table] are
    named, in whatever order and whatever else the list holds. *)
Theorem validator_rejects_conflicts (catalog : Oid) (opts : list DefElem) (i j : nat)
    (d1 d2 : DefElem) :
  i ≠ j ->
  opts !! i = Some d1 ->
  opts !! j = Some d2 ->
  (defname d1 = defname d2 ∧ defname d1 ≠ "port")
  ∨ (defname d1 = "query" ∧ defname d2 = "table") ->
  ∃ e, mysql_fdw_validator opts catalog = Raise e.
Proof.
  intros Hij Hi Hj [[Hsame Hport]|[Hq Ht]].
  - destruct (Nat.lt_total i j) as [Hlt|[?|Hlt]]; [|done|].
    + by eapply (validator_rejects_repeated catalog opts i j d1 d2).
    + eapply (validator_rejects_repeated catalog opts j i d2 d1); try done.
      by rewrite <- Hsame.
  - unfold mysql_fdw_validator, mbind, outcome_bind.
    destruct (validate_options catalog svr_init opts) as [s'|e|f] eqn:Hv.
    + exfalso. eapply (validate_options_query_and_table catalog opts svr_init d1 d2); try done;
        by eapply list_elem_of_lookup_2.
    + eauto.
    + by destruct (validate_options_no_fault catalog opts svr_init f).
Qed.

Lemma validator_rejects_conflicts_witness :
  ∃ e, mysql_fdw_validator [mkDef "table" "orders"; mkDef "database" "shop"; mkDef "query" "SELECT 1"]
                           ForeignTableRelationId = Raise e.
Proof.
  apply (validator_rejects_conflicts ForeignTableRelationId
           [mkDef "table" "orders"; mkDef "database" "shop"; mkDef "query" "SELECT 1"]
           2%nat 0%nat (mkDef "query" "SELECT 1") (mkDef "table" "orders")).
  - lia.
  - reflexivity.
  - reflexivity.
  - right. split; reflexivity.
Defined.

(** X6: the validator accepts every list whose names are valid for the
    catalog and all different, unless it names both [query] and
    [table]. *)
Theorem validator_accepts_well_formed (catalog : Oid) (opts : list DefElem) :
  Forall (fun d => mysqlIsValidOption (defname d) catalog = true) opts ->
  NoDup (defname <$> opts) ->
  ¬ ("query" ∈ defname <$> opts ∧ "table" ∈ defname <$> opts) ->
  mysql_fdw_validator opts catalog = Ok tt.
Proof.
  intros Hvalid Hnodup Hqt. apply validator_ok.
  apply validate_options_free; try done. intros d _. apply free_svr_init.
Qed.

Lemma validator_accepts_well_formed_witness :
  mysql_fdw_validator [mkDef "database" "shop"; mkDef "table" "orders"] ForeignTableRelationId
  = Ok tt.
Proof.
  apply (validator_accepts_well_formed ForeignTableRelationId
           [mkDef "database" "shop"; mkDef "table" "orders"]).
  - repeat constructor.
  - apply (bool_decide_unpack (NoDup ["database"; "table"])). vm_compute. exact I.
  - intros [Hq _]. revert Hq.
    apply (bool_decide_unpack ("query" ∉ ["database"; "table"])). vm_compute. exact I.
Defined.

Module ValidatedFacts.

Lemma validate_option_valid catalog s d s' :
  validate_option catalog s d = Ok s' -> mysqlIsValidOption (defname d) catalog = true.
Proof.
  unfold validate_option. by destruct (mysqlIsValidOption (defname d) catalog).
Qed.

Lemma validate_options_valid catalog opts s s' :
  validate_options catalog s opts = Ok s' ->
  Forall (fun d => mysqlIsValidOption (defname d) catalog = true) opts.
Proof.
  revert s. induction opts as [|d opts IH]; intros s; [by constructor|].
  cbn. unfold mbind, outcome_bind.
  destruct (validate_option catalog s d) as [s0|e|f] eqn:Hd; [|done..].
  intros Hrest. constructor; [by eapply validate_option_valid|by eapply IH].
Qed.

(** The names valid for a server or for a user mapping are neither
    [table] nor [query]. *)
Lemma not_table_level name catalog :
  catalog = ForeignServerRelationId ∨ catalog = UserMappingRelationId ->
  mysqlIsValidOption name catalog = true ->
  name ≠ "table" ∧ name ≠ "query".
Proof.
  intros [-> | ->]; unfold mysqlIsValidOption, valid_options;
    cbn [existsb optcontext optname];
    rewrite !orb_true_iff, !andb_true_iff, !String.eqb_eq;
    intros H; split; intros ->; intuition discriminate.
Qed.

End ValidatedFacts.

Import ValidatedFacts.

(** X7: options that passed validation resolve: when the lists of the
    table, the server and the user mapping were each accepted by the
    validator for their catalog and the table names a table or a query,
    the resolver succeeds, and of [query] and [table] exactly one is
    set in what it returns. *)
Theorem validated_options_resolve (cat : Catalog) (d : DefElem) :
  mysql_fdw_validator (f_table cat) ForeignTableRelationId = Ok tt ->
  mysql_fdw_validator (f_server cat) ForeignServerRelationId = Ok tt ->
  mysql_fdw_validator (f_mapping cat) UserMappingRelationId = Ok tt ->
  d ∈ f_table cat ->
  defname d = "table" ∨ defname d = "query" ->
  ∃ s, mysqlGetOptions cat = Ok s
       ∧ is_set (svr_query s) = negb (is_set (svr_table s)).
Proof.
  intros Ht Hs Hm Hd Hname.
  apply validator_ok in Ht as [st Ht]. apply validator_ok in Hs as [ss Hs].
  apply validator_ok in Hm as [sm Hm].
  assert (∀ name, name = "table" ∨ name = "query" ->
                  supplied name (all_options cat) = supplied name (f_table cat)) as Hsup.
  { intros name Hn. unfold all_options. rewrite !supplied_app.
    rewrite (supplied_none name (f_mapping cat)), (supplied_none name (f_server cat)); [done| |].
    - eapply Forall_impl; [by eapply validate_options_valid|]. cbn. intros d0 Hv.
      destruct (not_table_level _ ForeignServerRelationId (or_introl eq_refl) Hv).
      by destruct Hn as [-> | ->].
    - eapply Forall_impl; [by eapply validate_options_valid|]. cbn. intros d0 Hv.
      destruct (not_table_level _ UserMappingRelationId (or_intror eq_refl) Hv).
      by destruct Hn as [-> | ->]. }
  rewrite mysqlGetOptions_resolved, !Hsup by auto.
  destruct (supplied "table" (f_table cat)) as [t|] eqn:Et,
           (supplied "query" (f_table cat)) as [q|] eqn:Eq.
  - exfalso. apply supplied_some in Et as (dt & Hdt & Hnt).
    apply supplied_some in Eq as (dq & Hdq & Hnq).
    by eapply (validate_options_query_and_table ForeignTableRelationId (f_table cat) svr_init dq dt).
  - rewrite bool_decide_false by (intros [? _]; done).
    eexists. split; [done|]. unfold resolved. cbn. rewrite !Hsup, Et, Eq by auto. done.
  - rewrite bool_decide_false by (intros [_ ?]; done).
    eexists. split; [done|]. unfold resolved. cbn. rewrite !Hsup, Et, Eq by auto. done.
  - exfalso. destruct Hname as [Hn|Hn].
    + destruct (supplied_is_some _ _ _ Hd Hn) as [v Hv]. congruence.
    + destruct (supplied_is_some _ _ _ Hd Hn) as [v Hv]. congruence.
Qed.

Lemma validated_options_resolve_witness :
  ∃ s, mysqlGetOptions (mkCatalog [mkDef "database" "shop"; mkDef "table" "orders"]
                                  [mkDef "address" "db.example.com"; mkDef "port" "3307"]
                                  [mkDef "username" "joe"; mkDef "password" "secret"])
       = Ok s
       ∧ is_set (svr_query s) = negb (is_set (svr_table s)).
Proof.
  apply (validated_options_resolve
           (mkCatalog [mkDef "database" "shop"; mkDef "table" "orders"]
                      [mkDef "address" "db.example.com"; mkDef "port" "3307"]
                      [mkDef "username" "joe"; mkDef "password" "secret"])
           (mkDef "table" "orders")); try reflexivity.
  - cbn. right. left.
  - by left.
Defined.

Section ExplainFacts.
Context `{Double}.

(** X8: EXPLAIN of a scan that was begun, with costs asked for, prints
    two properties after those already there: the startup cost, local
    10 or remote 25, the number a plan of the same table gets as its
    startup cost, and the query the scan was begun with.  It opens no
    connection and sends no statement; without costs it prints
    nothing. *)
Theorem explain_agrees_with_plan_and_scan (env : Env) (cat : Catalog) (es : ExplainState)
    (b b1 : Backend) :
  mysqlBeginForeignScan env cat b = (Ok tt, b1) ->
  ∃ s address eff cost qlabel,
    mysqlGetOptions cat = Ok s
    ∧ svr_address s = Some address
    ∧ effective_query s = Some eff
    ∧ (cost, qlabel) = (if is_local address
                        then (10, "Local server startup cost")
                        else (25, "Remote server startup cost"))
    ∧ mysqlExplainForeignScan cat es b1
      = (Ok (if costs es
             then mkExplain true (properties es ++ [(qlabel, ExplainLong cost);
                                                     ("MySQL query", ExplainText eff)])
             else es),
         b1)
    ∧ (∀ env' b0 plan b0',
         mysqlPlanForeignScan env' cat b0 = (Ok plan, b0') -> startup_cost plan = of_int cost).
Proof.
  intros Hbegin.
  destruct (begin_outcomes _ _ _ _ _ Hbegin) as [(s & eff & Hopt & Heff & _ & Hf & _)|(e & ? & _)];
    [|done].
  destruct (mysqlGetOptions_address _ _ Hopt) as [address Haddr].
  exists s, address, eff.
  exists (if is_local address then 10 else 25).
  exists (if is_local address then "Local server startup cost" else "Remote server startup cost").
  repeat split; try done.
  - by destruct (is_local address).
  - unfold mysqlExplainForeignScan. unfold_M. rewrite Hopt.
    destruct (costs es) eqn:Hcosts; [|done].
    rewrite Haddr, Hf. cbn [query].
    unfold ExplainPropertyText, ExplainPropertyLong.
    destruct (is_local address); cbn [costs properties]; rewrite Hcosts, <- app_assoc; done.
  - intros env' b0 plan b0' Hplan.
    destruct (plan_returned _ _ _ _ _ Hplan)
      as (s' & address' & eff' & n & rows & Hopt' & Haddr' & _ & _ & _ & _ & ->).
    rewrite Hopt in Hopt'. injection Hopt' as <-.
    rewrite Haddr in Haddr'. injection Haddr' as <-.
    cbn [startup_cost]. by destruct (is_local address).
Qed.

End ExplainFacts.

Lemma explain_agrees_with_plan_and_scan_witness :
  ∃ s address eff cost qlabel,
    mysqlGetOptions orders = Ok s
    ∧ svr_address s = Some address
    ∧ effective_query s = Some eff
    ∧ (cost, qlabel) = (if is_local address
                        then (10, "Local server startup cost")
                        else (25, "Remote server startup cost"))
    ∧ mysqlExplainForeignScan orders (mkExplain true []) (begun (server true true None))
      = (Ok (if costs (mkExplain true [])
             then mkExplain true (properties (mkExplain true [])
                                    ++ [(qlabel, ExplainLong cost);
                                        ("MySQL query", ExplainText eff)])
             else mkExplain true []),
         begun (server true true None))
    ∧ (∀ env' b0 plan b0',
         mysqlPlanForeignScan (H := integral) env' orders b0 = (Ok plan, b0') ->
         startup_cost plan = cost).
Proof.
  apply (explain_agrees_with_plan_and_scan (H := integral) (server true true None) orders
           (mkExplain true []) (fresh [int4_column]) (begun (server true true None))).
  reflexivity.
Defined.

Module DumpFacts.

Lemma hex_byte_length c : String.length (hex_byte c) = 4%nat.
Proof. reflexivity. Qed.

Lemma hex_dump_length bytes :
  String.length (hex_dump bytes) = (5 * length bytes - 1)%nat.
Proof.
  induction bytes as [|c [|c' rest] IH]; [reflexivity..|].
  change (hex_dump (c :: c' :: rest)) with (hex_byte c +:+ " " +:+ hex_dump (c' :: rest)).
  rewrite !length_append, IH, hex_byte_length. cbn [length String.length]. lia.
Qed.

End DumpFacts.

(** X9: the dump [mysqlVerifymbstr] writes into [buf] fits it, the
    terminating NUL included, whatever the string, its length and the
    length the encoding gives for its first character: at most eight
    bytes are dumped, five characters each but for the last. *)
Theorem hex_dump_fits_buf (mbstr : string) (l len : nat) :
  (String.length (hex_dump (take (Nat.min (Nat.min l len) 8) (list_ascii_of_string mbstr))) + 1
   <= buf_size)%nat.
Proof.
  rewrite DumpFacts.hex_dump_length, length_take. unfold buf_size. lia.
Qed.

Module FieldFacts.

Lemma convert_field_on_live (env : Env) (attrs : list Attr) (row : list (option string))
    (x y : nat) (dvalues : list (option Datum)) (nulls : list (option bool)) (b : Backend)
    (a : Attr) (field : option string) :
  attrs !! y = Some a ->
  attisdropped a = false ->
  row !! x = Some field ->
  (y < length dvalues)%nat ->
  (y < length nulls)%nat ->
  convert_field env attrs row (mysql_fetch_lengths row) x y dvalues nulls b
  = match field with
    | None => (Ok (null_cell y dvalues nulls), b)
    | Some bytes =>
        if (String.length bytes =? 0)%nat then parsed_cell a "" y dvalues nulls b
        else if Ascii.eqb (typcategory a) TYPCATEGORY_STRING
                && negb (pg_verifymbstr env bytes (String.length bytes))
        then (Ok (null_cell y dvalues nulls),
              set_log ((WARNING,
                        invalid_byte_sequence (GetDatabaseEncodingName env) (c_str bytes))
                       :: log b) b)
        else parsed_cell a (c_str bytes) y dvalues nulls b
    end.
Proof.
  intros Ha Hlive Hrow Hdv Hnl.
  unfold convert_field, null_cell, parsed_cell.
  rewrite (drop_S _ _ _ Ha). cbn [while_dropped]. rewrite Hlive.
  unfold mysql_fetch_lengths, InputFunctionCall, store. unfold_M.
  rewrite Hrow, list_lookup_fmap, Hrow, Ha. cbn [fmap option_fmap option_map].
  rewrite (proj2 (Nat.ltb_lt _ _) Hdv), (proj2 (Nat.ltb_lt _ _) Hnl).
  destruct field as [bytes|]; [|reflexivity].
  destruct (String.length bytes =? 0)%nat.
  - by destruct (attinfunc a "" (atttypmod a)).
  - destruct (Ascii.eqb (typcategory a) TYPCATEGORY_STRING); cbn [andb].
    + unfold mysqlVerifymbstr. unfold_M.
      destruct (pg_verifymbstr env bytes (String.length bytes)); cbn [negb]; [|done].
      by destruct (attinfunc a (c_str bytes) (atttypmod a)).
    + by destruct (attinfunc a (c_str bytes) (atttypmod a)).
Qed.

End FieldFacts.

(** X10: the conversion of one remote field into a live column whose
    cell lies within the arrays.  A NULL field gives a null cell.  A
    field of length 0 is not null: it gives what the input function of
    the column makes of the empty string, or that function's error.
    Any other field of a string column that the encoding rejects gives
    a null cell and a warning, and every other field what the input
    function makes of it.  Only the warning changes the state. *)
Theorem convert_field_live (env : Env) (attrs : list Attr) (row : list (option string))
    (x y : nat) (dvalues : list (option Datum)) (nulls : list (option bool)) (b : Backend)
    (a : Attr) (field : option string) :
  attrs !! y = Some a ->
  attisdropped a = false ->
  row !! x = Some field ->
  (y < length dvalues)%nat ->
  (y < length nulls)%nat ->
  convert_field env attrs row (mysql_fetch_lengths row) x y dvalues nulls b
  = match field with
    | None => (Ok (null_cell y dvalues nulls), b)
    | Some bytes =>
        if (String.length bytes =? 0)%nat then parsed_cell a "" y dvalues nulls b
        else if Ascii.eqb (typcategory a) TYPCATEGORY_STRING
                && negb (pg_verifymbstr env bytes (String.length bytes))
        then (Ok (null_cell y dvalues nulls),
              set_log ((WARNING,
                        invalid_byte_sequence (GetDatabaseEncodingName env) (c_str bytes))
                       :: log b) b)
        else parsed_cell a (c_str bytes) y dvalues nulls b
    end.
Proof. apply FieldFacts.convert_field_on_live. Qed.

Lemma convert_field_live_witness :
  convert_field (server true true None) [int4_column] [Some ""]
                (mysql_fetch_lengths [Some ""]) 0 0 [None] [None] (fresh [int4_column])
  = match Some "" with
    | None => (Ok (null_cell 0 [None] [None]), fresh [int4_column])
    | Some bytes =>
        if (String.length bytes =? 0)%nat
        then parsed_cell int4_column "" 0 [None] [None] (fresh [int4_column])
        else if Ascii.eqb (typcategory int4_column) TYPCATEGORY_STRING
                && negb (pg_verifymbstr (server true true None) bytes (String.length bytes))
        then (Ok (null_cell 0 [None] [None]),
              set_log ((WARNING,
                        invalid_byte_sequence
                          (GetDatabaseEncodingName (server true true None)) (c_str bytes))
                       :: log (fresh [int4_column])) (fresh [int4_column]))
        else parsed_cell int4_column (c_str bytes) 0 [None] [None] (fresh [int4_column])
    end.
Proof.
  apply (convert_field_live (server true true None) [int4_column] [Some ""] 0 0
           [None] [None] (fresh [int4_column]) int4_column (Some ""));
    try reflexivity; cbn; lia.
Defined.

Module PadFacts.

Lemma padded_nil {A} y (v : A) a : padded y 0 v a = a.
Proof. unfold padded. cbn. rewrite Nat.add_0_r. apply take_drop. Qed.

Lemma take_past_middle {A} (l1 l2 : list A) x :
  take (S (length l1)) (l1 ++ x :: l2)%list = (l1 ++ [x])%list.
Proof.
  rewrite (cons_middle x l1 l2), app_assoc.
  apply take_app_length'. rewrite length_app. cbn. lia.
Qed.

Lemma drop_past_middle {A} (l1 l2 : list A) x k :
  drop (S (length l1) + k) (l1 ++ x :: l2)%list = drop k l2.
Proof.
  rewrite (cons_middle x l1 l2), app_assoc.
  replace (S (length l1) + k)%nat with (length (l1 ++ [x])%list + k)%nat
    by (rewrite length_app; cbn; lia).
  by rewrite drop_app_add.
Qed.

Lemma padded_step {A} y k (v : A) a :
  (y < length a)%nat -> padded (S y) k v (<[y := Some v]> a) = padded y (S k) v a.
Proof.
  intros Hy. unfold padded. rewrite insert_take_drop by done.
  assert (length (take y a) = y) as Hlen by (rewrite length_take; lia).
  pose proof (take_past_middle (take y a) (drop (S y) a) (Some v)) as Ht.
  pose proof (drop_past_middle (take y a) (drop (S y) a) (Some v) k) as Hd.
  rewrite Hlen in Ht, Hd. rewrite Ht, Hd.
  rewrite drop_drop, <- app_assoc. cbn. by rewrite Nat.add_succ_r.
Qed.

End PadFacts.

(** X11: dropped columns in front of a live one, with room in the
    arrays: the loop over them sets the cell of each to null, logs one
    notice for each, touches no other cell and nothing else of the
    state, and stops at the live column. *)
Theorem while_dropped_pads (ds : list Attr) (a : Attr) (rest : list Attr) (y : nat)
    (dvalues : list (option Datum)) (nulls : list (option bool)) (b : Backend) :
  Forall (fun d => attisdropped d = true) ds ->
  attisdropped a = false ->
  (y + length ds <= length dvalues)%nat ->
  (y + length ds <= length nulls)%nat ->
  while_dropped (ds ++ a :: rest) y dvalues nulls b
  = (Ok ((y + length ds)%nat,
         padded y (length ds) Datum0 dvalues,
         padded y (length ds) true nulls),
     set_log (dropped_notices y (length ds) ++ log b) b).
Proof.
  intros Hds Ha. revert y dvalues nulls b.
  induction Hds as [|d ds Hd _ IH]; intros y dvalues nulls b Hdv Hnl.
  - cbn [app while_dropped length]. rewrite Ha, Nat.add_0_r, !PadFacts.padded_nil.
    by destruct b.
  - cbn [app while_dropped length] in *. rewrite Hd.
    unfold store. unfold_M.
    rewrite (proj2 (Nat.ltb_lt _ _)), (proj2 (Nat.ltb_lt _ _)) by lia.
    rewrite IH by (rewrite length_insert; lia).
    rewrite !PadFacts.padded_step by lia.
    rewrite Nat.add_succ_r. f_equal.
    unfold dropped_notices, set_log. cbn [log seq fmap list_fmap].
    rewrite reverse_cons, <- app_assoc. by destruct b.
Qed.

Lemma while_dropped_pads_witness :
  while_dropped ([dropped_column; dropped_column] ++ int4_column :: []) 1
                [None; None; None; None] [None; None; None; None] (fresh [])
  = (Ok ((1 + length [dropped_column; dropped_column])%nat,
         padded 1 (length [dropped_column; dropped_column]) Datum0 [None; None; None; None],
         padded 1 (length [dropped_column; dropped_column]) true [None; None; None; None]),
     set_log (dropped_notices 1 (length [dropped_column; dropped_column]) ++ log (fresh []))
             (fresh [])).
Proof.
  apply (while_dropped_pads [dropped_column; dropped_column] int4_column [] 1
           [None; None; None; None] [None; None; None; None] (fresh [])).
  - repeat constructor.
  - reflexivity.
  - cbn. lia.
  - cbn. lia.
Defined.

Module BlindFacts.

Lemma blind_ret {A} (a : A) : blind (mret a).
Proof. by intros b b'. Qed.

Lemma blind_raise {A} e : blind (raise (A := A) e).
Proof. by intros b b'. Qed.

Lemma blind_fault {A} f : blind (fault (A := A) f).
Proof. by intros b b'. Qed.

Lemma blind_lift {A} (o : outcome A) : blind (lift o).
Proof. by intros b b'. Qed.

Lemma blind_report l e : blind (report l e).
Proof. by intros b b'. Qed.

Lemma blind_bind {A B} (m : M A) (k : A -> M B) :
  blind m -> (∀ a, blind (k a)) -> blind (m ≫= k).
Proof.
  intros Hm Hk b b'. unfold mbind, M_bind. specialize (Hm b b').
  destruct (m b) as [[a|e|f] b1], (m b') as [[a'|e'|f'] b1']; cbn in Hm; try discriminate.
  - injection Hm as <-. apply Hk.
  - by injection Hm as <-.
  - by injection Hm as <-.
Qed.

Ltac blindly :=
  repeat (intros; cbn beta;
          match goal with
          | |- blind (mbind _ _) => apply blind_bind
          | |- blind (mret _) => apply blind_ret
          | |- blind (raise _) => apply blind_raise
          | |- blind (fault _) => apply blind_fault
          | |- blind (lift _) => apply blind_lift
          | |- blind (report _ _) => apply blind_report
          | |- blind (if ?c then _ else _) => destruct c
          | |- blind (match ?x with _ => _ end) => destruct x
          end).

Lemma blind_store {A} (a : list (option A)) y v : blind (store a y v).
Proof. unfold store. blindly. Qed.

Lemma blind_InputFunctionCall a str : blind (InputFunctionCall a str).
Proof. unfold InputFunctionCall. blindly. Qed.

Lemma blind_mysqlVerifymbstr env mbstr len : blind (mysqlVerifymbstr env mbstr len).
Proof. unfold mysqlVerifymbstr. blindly. Qed.

Lemma blind_while_dropped attrs_y y dvalues nulls :
  blind (while_dropped attrs_y y dvalues nulls).
Proof.
  revert y dvalues nulls. induction attrs_y as [|a rest IH]; intros y dvalues nulls; cbn.
  - apply blind_fault.
  - destruct (attisdropped a); [|apply blind_ret].
    blindly; try apply blind_store. apply IH.
Qed.

Lemma blind_convert_field env attrs row lengths x y dvalues nulls :
  blind (convert_field env attrs row lengths x y dvalues nulls).
Proof.
  unfold convert_field.
  apply blind_bind; [apply blind_while_dropped|].
  intros [[y' dv] nl].
  blindly; first [apply blind_store | apply blind_InputFunctionCall
                 | apply blind_mysqlVerifymbstr].
Qed.

Lemma blind_for_fields env attrs row lengths todo x y dvalues nulls :
  blind (for_fields env attrs row lengths todo x y dvalues nulls).
Proof.
  revert x y dvalues nulls. induction todo as [|todo IH]; intros x y dvalues nulls; cbn.
  - apply blind_ret.
  - apply blind_bind; [apply blind_convert_field|].
    intros [[y' dv] nl]. apply IH.
Qed.

Lemma blind_convert_row env attrs n row : blind (convert_row env attrs n row).
Proof. apply blind_for_fields. Qed.

End BlindFacts.

Import BlindFacts.

Module ScanRunFacts.

(** The conversion of a row changes the diagnostics only. *)
Lemma convert_row_runs env attrs n row b :
  ∃ l, convert_row env attrs n row b = (fst (convert_row env attrs n row b), set_log l b).
Proof.
  destruct (log_only_for_fields env attrs row (mysql_fetch_lengths row) n 0 0
              (replicate n None) (replicate n None) b) as [l Hl].
  exists l. unfold convert_row. by destruct (for_fields _ _ _ _ _ _ _ _ _ b); cbn in *; subst.
Qed.

Lemma convert_row_length env attrs n row b dv nl :
  fst (convert_row env attrs n row b) = Ok (dv, nl) -> length dv = n ∧ length nl = n.
Proof.
  unfold convert_row.
  destruct (for_fields _ _ _ _ _ _ _ _ _ b) as [o b'] eqn:Hfor. cbn. intros ->.
  apply for_fields_length in Hfor as [Hdv Hnl].
  rewrite length_replicate in Hdv. by rewrite length_replicate in Hnl.
Qed.

(** The block that fetches a row, on a result with a row under the
    cursor: the cursor moves on, and the slot is stored when the
    conversion returned. *)
Lemma next_tuple_row_run env meta b f r row :
  fdw_state (node b) = Some f ->
  result f = Some r ->
  res_rows r !! res_cursor r = Some row ->
  ∃ l, next_tuple env meta b
       = (match fst (convert_row env meta (num_fields f) row b) with
          | Ok _ => Ok tt
          | Raise e => Raise e
          | Fault ft => Fault ft
          end,
          mkBackend (conns b) (next_conn b) (sent b) l
            (mkNode (rd_att (node b))
                    (match fst (convert_row env meta (num_fields f) row b) with
                     | Ok (dv, nl) => mkSlot false dv nl
                     | _ => ss_ScanTupleSlot (node b)
                     end)
                    (Some (set_result (Some (advance r)) f)))).
Proof.
  destruct b as [c nx se lg [att slot fs]]. cbn [node fdw_state].
  intros -> Hr Hrow. unfold next_tuple, mysql_fetch_row. unfold_scan. unfold_M. settle.
  rewrite Hr, Hrow. settle.
  match goal with |- context [for_fields env meta row ?ls ?n 0%nat 0%nat ?dv ?nl ?st] =>
    change (for_fields env meta row ls n 0%nat 0%nat dv nl st)
      with (convert_row env meta (num_fields f) row st);
    destruct (convert_row_runs env meta (num_fields f) row st) as [l Hl];
    rewrite Hl;
    rewrite (blind_convert_row env meta (num_fields f) row st
               (mkBackend c nx se lg (mkNode att slot (Some f))))
  end.
  exists l. clear Hl.
  destruct (fst (convert_row env meta (num_fields f) row _)) as [[dv nl]|e|ft]; settle;
    reflexivity.
Qed.

(** A call of [mysqlIterateForeignScan] on a scan whose query was
    executed, with a row under the cursor. *)
Lemma iterate_row_run env b f r row :
  fdw_state (node b) = Some f ->
  result f = Some r ->
  res_rows r !! res_cursor r = Some row ->
  ∃ l, mysqlIterateForeignScan env b
       = (match fst (convert_row env (rd_att (node b)) (num_fields f) row b) with
          | Ok (dv, nl) => Ok (mkSlot false dv nl)
          | Raise e => Raise e
          | Fault ft => Fault ft
          end,
          mkBackend (conns b) (next_conn b) (sent b) l
            (mkNode (rd_att (node b))
                    (match fst (convert_row env (rd_att (node b)) (num_fields f) row b) with
                     | Ok (dv, nl) => mkSlot false dv nl
                     | _ => ss_ScanTupleSlot (node (clear_slot b))
                     end)
                    (Some (set_result (Some (advance r)) f)))).
Proof.
  intros Hf Hr Hrow. unfold mysqlIterateForeignScan.
  rewrite (bind_ok get _ b b b eq_refl).
  rewrite (bind_ok _ _ _ _ _ (execute_query_done env b f r Hf Hr)).
  rewrite (bind_ok _ _ _ _ _ (ExecClearTuple_clears b)).
  destruct (next_tuple_row_run env (rd_att (node b)) (clear_slot b) f r row Hf Hr Hrow)
    as [l Hnext].
  rewrite (blind_convert_row _ _ _ _ (clear_slot b) b) in Hnext.
  exists l. unfold mbind, M_bind. rewrite Hnext.
  by destruct (fst (convert_row env (rd_att (node b)) (num_fields f) row b)) as [[dv nl]|e|ft].
Qed.

(** [n] calls on a scan whose query was executed, all returning: the
    slots, the cursor, and what the calls leave alone. *)
Lemma iterate_n_executed env n : ∀ b f r slots b',
  fdw_state (node b) = Some f ->
  result f = Some r ->
  iterate_n env n b = (Ok slots, b') ->
  length slots = n
  ∧ (∀ i slot, slots !! i = Some slot ->
       tts_isempty slot = bool_decide (length (res_rows r) ≤ res_cursor r + i)%nat
       ∧ (tts_isempty slot = false ->
          length (tts_values slot) = num_fields f ∧ length (tts_isnull slot) = num_fields f))
  ∧ fdw_state (node b')
    = Some (set_result
              (Some (mkRes (res_fields r) (res_rows r)
                           (Nat.max (res_cursor r)
                                    (Nat.min (res_cursor r + n) (length (res_rows r)))))) f)
  ∧ conns b' = conns b
  ∧ next_conn b' = next_conn b
  ∧ sent b' = sent b
  ∧ rd_att (node b') = rd_att (node b).
Proof.
  induction n as [|n IH]; intros b f r slots b' Hf Hr; cbn [iterate_n].
  - intros [= <- <-]. repeat split; try done.
    rewrite Hf. destruct f as [c0 r0 q0 n0], r as [nf rows cur]. cbn in *. subst r0.
    unfold set_result. cbn. do 4 f_equal. lia.
  - intros Hit.
    apply bind_ok_inv in Hit as (slot0 & b1 & Hone & Hit).
    apply bind_ok_inv in Hit as (rest & b2 & Hrest & Hit).
    injection Hit as <- <-.
    destruct (res_rows r !! res_cursor r) as [row|] eqn:Hrow.
    + destruct (iterate_row_run env b f r row Hf Hr Hrow) as [l Hrun].
      rewrite Hrun in Hone. clear Hrun.
      destruct (fst (convert_row env (rd_att (node b)) (num_fields f) row b))
        as [[dv nl]|e|ft] eqn:Ho; [|discriminate..].
      injection Hone as <- <-.
      apply convert_row_length in Ho as [Hdv Hnl].
      eapply (IH _ (set_result (Some (advance r)) f) (advance r)) in Hrest
        as (Hlen & Hslots & Hst & Hc & Hnx & Hs & Hatt); [|reflexivity..].
      apply lookup_lt_Some in Hrow.
      split; [cbn; by rewrite Hlen|]. split; [|split; [|done]].
      * intros [|i] slot Hi; cbn in Hi.
        -- injection Hi as <-. cbn. split; [|done].
           symmetry. apply bool_decide_eq_false. lia.
        -- destruct (Hslots i slot Hi) as [He Hw]. cbn in He, Hw. split; [|done].
           rewrite He. apply bool_decide_ext. lia.
      * rewrite Hst. unfold set_result, advance.
        cbn [res_fields res_rows res_cursor conn query num_fields result].
        do 4 f_equal. lia.
    + rewrite (proj1 (iterate_one_row env b f r Hf Hr) Hrow) in Hone.
      injection Hone as <- <-.
      destruct (IH (clear_slot b) f r rest b2 Hf Hr Hrest)
        as (Hlen & Hslots & Hst & Hc & Hnx & Hs & Hatt).
      apply lookup_ge_None in Hrow.
      split; [cbn; by rewrite Hlen|]. split; [|split; [|done]].
      * intros [|i] slot Hi; cbn in Hi.
        -- injection Hi as <-. cbn. split; [|done].
           symmetry. apply bool_decide_eq_true. lia.
        -- destruct (Hslots i slot Hi) as [He Hw]. split; [|done].
           rewrite He. apply bool_decide_ext. lia.
      * rewrite Hst. do 4 f_equal. lia.
Qed.

End ScanRunFacts.

Import ScanRunFacts.

(** X12: the tuple a call hands out for a row depends on the row, the
    descriptor and the number of fields alone: two calls on states that
    agree on these have the same outcome, whatever connections,
    diagnostics, slot contents and query the states hold. *)
Theorem iterate_depends_on_row_only (env : Env) (b1 b2 : Backend)
    (f1 f2 : MySQLFdwExecutionState) (r1 r2 : MYSQL_RES) (row : MYSQL_ROW) :
  fdw_state (node b1) = Some f1 ->
  fdw_state (node b2) = Some f2 ->
  result f1 = Some r1 ->
  result f2 = Some r2 ->
  res_rows r1 !! res_cursor r1 = Some row ->
  res_rows r2 !! res_cursor r2 = Some row ->
  rd_att (node b1) = rd_att (node b2) ->
  num_fields f1 = num_fields f2 ->
  fst (mysqlIterateForeignScan env b1) = fst (mysqlIterateForeignScan env b2).
Proof.
  intros Hf1 Hf2 Hr1 Hr2 Hrow1 Hrow2 Hatt Hn.
  destruct (iterate_row_run env b1 f1 r1 row Hf1 Hr1 Hrow1) as [l1 ->].
  destruct (iterate_row_run env b2 f2 r2 row Hf2 Hr2 Hrow2) as [l2 ->].
  cbn [fst]. by rewrite Hatt, Hn, (blind_convert_row _ _ _ _ b1 b2).
Qed.

Lemma iterate_depends_on_row_only_witness :
  fst (mysqlIterateForeignScan two_rows executed)
  = fst (mysqlIterateForeignScan two_rows rewound).
Proof.
  apply (iterate_depends_on_row_only two_rows executed rewound
           executed_state executed_state
           (mkRes 1 [[Some "7"]; [Some "8"]] 0) (mkRes 1 [[Some "7"]; [Some "8"]] 0)
           [Some "7"]); reflexivity.
Defined.

Module RescanFacts.

Lemma rescan_run b f r :
  fdw_state (node b) = Some f ->
  result f = Some r ->
  mysqlReScanForeignScan b
  = (Ok tt,
     mkBackend (conns b) (next_conn b) (sent b) (log b)
       (mkNode (rd_att (node b)) (ss_ScanTupleSlot (node b))
               (Some (set_result (Some (mysql_data_seek r 0)) f)))).
Proof.
  destruct b as [c nx se lg [att slot fs]]. cbn [node fdw_state].
  intros -> Hr. unfold mysqlReScanForeignScan. unfold_scan. unfold_M. settle.
  rewrite Hr. settle. reflexivity.
Qed.

Lemma rescan_unexecuted b f :
  fdw_state (node b) = Some f -> result f = None -> mysqlReScanForeignScan b = (Ok tt, b).
Proof.
  destruct b as [c nx se lg [att slot fs]]. cbn [node fdw_state].
  intros -> Hr. unfold mysqlReScanForeignScan. unfold_scan. unfold_M. settle.
  by rewrite Hr.
Qed.

End RescanFacts.

(** X13: a rescan before the query was executed changes nothing.  After
    it was, and after any number of calls that returned, a rescan puts
    the cursor back on the first row and leaves connections, statements
    sent and diagnostics as they are: the call that follows has the
    outcome the first call of the scan had. *)
Theorem rescan_rewinds (env : Env) (b : Backend) (f : MySQLFdwExecutionState) :
  fdw_state (node b) = Some f ->
  (result f = None -> mysqlReScanForeignScan b = (Ok tt, b))
  ∧ (∀ r n slots b1,
       result f = Some r ->
       res_cursor r = 0%nat ->
       iterate_n env n b = (Ok slots, b1) ->
       ∃ b2, mysqlReScanForeignScan b1 = (Ok tt, b2)
             ∧ fdw_state (node b2) = Some f
             ∧ conns b2 = conns b
             ∧ sent b2 = sent b
             ∧ log b2 = log b1
             ∧ tuple_returned (fst (mysqlIterateForeignScan env b2))
               = tuple_returned (fst (mysqlIterateForeignScan env b))).
Proof.
  intros Hf. split; [by apply RescanFacts.rescan_unexecuted|].
  intros r n slots b1 Hr Hcur Hit.
  destruct (iterate_n_executed env n b f r slots b1 Hf Hr Hit)
    as (_ & _ & Hst & Hc & _ & Hs & Hatt).
  rewrite (RescanFacts.rescan_run b1 _ _ Hst eq_refl). eexists. split; [reflexivity|].
  assert (set_result (Some (mkRes (res_fields r) (res_rows r) 0)) f = f) as Hsame.
  { destruct f as [c0 r0 q0 n0], r as [nf rows cur]. cbn in *. by subst. }
  cbn [node fdw_state conns sent log]. unfold mysql_data_seek. cbn [res_fields res_rows].
  change (set_result ?x (set_result _ f)) with (set_result x f). rewrite Hsame.
  repeat split; try done.
  match goal with |- context [mysqlIterateForeignScan env ?st] => set (b2 := st) end.
  assert (fdw_state (node b2) = Some f) as Hf2 by done.
  assert (rd_att (node b2) = rd_att (node b)) as Hatt2 by done.
  clearbody b2.
  destruct (res_rows r !! res_cursor r) as [row|] eqn:Hrow.
  - destruct (iterate_row_run env b2 f r row Hf2 Hr Hrow) as [l2 ->].
    destruct (iterate_row_run env b f r row Hf Hr Hrow) as [l ->].
    cbn [fst]. by rewrite Hatt2, (blind_convert_row _ _ _ _ b2 b).
  - rewrite (proj1 (iterate_one_row env b2 f r Hf2 Hr) Hrow).
    by rewrite (proj1 (iterate_one_row env b f r Hf Hr) Hrow).
Qed.

Lemma rescan_rewinds_witness :
  (result executed_state = None -> mysqlReScanForeignScan executed = (Ok tt, executed))
  ∧ ∃ b2, mysqlReScanForeignScan after_first_row = (Ok tt, b2)
          ∧ fdw_state (node b2) = Some executed_state
          ∧ conns b2 = conns executed
          ∧ sent b2 = sent executed
          ∧ log b2 = log after_first_row
          ∧ tuple_returned (fst (mysqlIterateForeignScan two_rows b2))
            = tuple_returned (fst (mysqlIterateForeignScan two_rows executed)).
Proof.
  destruct (rescan_rewinds two_rows executed executed_state eq_refl) as [Hnone Hsome].
  split; [exact Hnone|].
  apply (Hsome (mkRes 1 [[Some "7"]; [Some "8"]] 0) 1%nat
               [mkSlot false [Some (DatumInt 7)] [Some false]] after_first_row);
    reflexivity.
Defined.

(** X14: calls in a row on a scan whose query was executed, all of
    which return: the i-th slot is empty exactly when fewer than i rows
    were left under the cursor, every other slot has as many cells as
    the result has fields, and the cursor has moved by the number of
    rows handed out. *)
Theorem iterate_n_rows (env : Env) (n : nat) (b : Backend) (f : MySQLFdwExecutionState)
    (r : MYSQL_RES) (slots : list TupleTableSlot) (b' : Backend) :
  fdw_state (node b) = Some f ->
  result f = Some r ->
  iterate_n env n b = (Ok slots, b') ->
  length slots = n
  ∧ (∀ i slot, slots !! i = Some slot ->
       tts_isempty slot = bool_decide (length (res_rows r) ≤ res_cursor r + i)%nat
       ∧ (tts_isempty slot = false ->
          length (tts_values slot) = num_fields f ∧ length (tts_isnull slot) = num_fields f))
  ∧ fdw_state (node b')
    = Some (set_result
              (Some (mkRes (res_fields r) (res_rows r)
                           (Nat.max (res_cursor r)
                                    (Nat.min (res_cursor r + n) (length (res_rows r)))))) f).
Proof.
  intros Hf Hr Hit.
  destruct (iterate_n_executed env n b f r slots b' Hf Hr Hit) as (Hlen & Hslots & Hst & _).
  split; [exact Hlen|]. split; [exact Hslots|exact Hst].
Qed.

Lemma iterate_n_rows_witness :
  length [mkSlot false [Some (DatumInt 7)] [Some false];
          mkSlot false [Some (DatumInt 8)] [Some false];
          mkSlot true [Some (DatumInt 8)] [Some false]] = 3%nat
  ∧ (∀ i slot,
       [mkSlot false [Some (DatumInt 7)] [Some false];
        mkSlot false [Some (DatumInt 8)] [Some false];
        mkSlot true [Some (DatumInt 8)] [Some false]] !! i = Some slot ->
       tts_isempty slot = bool_decide (2 ≤ 0 + i)%nat
       ∧ (tts_isempty slot = false ->
          length (tts_values slot) = 1%nat ∧ length (tts_isnull slot) = 1%nat))
  ∧ fdw_state (node (snd (iterate_n two_rows 3 executed)))
    = Some (set_result (Some (mkRes 1 [[Some "7"]; [Some "8"]] 2)) executed_state).
Proof.
  apply (iterate_n_rows two_rows 3 executed executed_state
           (mkRes 1 [[Some "7"]; [Some "8"]] 0)
           [mkSlot false [Some (DatumInt 7)] [Some false];
            mkSlot false [Some (DatumInt 8)] [Some false];
            mkSlot true [Some (DatumInt 8)] [Some false]]
           (snd (iterate_n two_rows 3 executed)));
    [reflexivity | reflexivity | vm_compute; reflexivity].
Defined.

Module LifeCycleFacts.

(** What [mysqlBeginForeignScan] leaves when it returns. *)
Lemma begin_returned env cat b b1 :
  mysqlBeginForeignScan env cat b = (Ok tt, b1) ->
  ∃ s eff,
    mysqlGetOptions cat = Ok s
    ∧ effective_query s = Some eff
    ∧ b1 = mkBackend (<[next_conn b := None]> (conns b)) (S (next_conn b)) (sent b) (log b)
             (mkNode (rd_att (node b)) (ss_ScanTupleSlot (node b))
                     (Some (mkState (Some (next_conn b)) None (Some eff) 0))).
Proof.
  destruct (mysqlGetOptions cat) as [s|e|f] eqn:Hopt.
  - destruct (mysqlGetOptions_effective _ _ Hopt) as [eff Heff].
    destruct (env_alloc env) eqn:Halloc; [destruct (env_accepts env s) eqn:Hacc|].
    + rewrite (begin_returns _ _ _ _ _ Hopt Heff Halloc Hacc). intros [= <-]. eauto.
    + unfold mysqlBeginForeignScan. unfold_scan. unfold_M.
      rewrite Hopt, Halloc. settle. rewrite Hacc. settle. discriminate.
    + unfold mysqlBeginForeignScan. unfold_scan. unfold_M.
      rewrite Hopt, Halloc. settle. discriminate.
  - unfold mysqlBeginForeignScan. unfold_M. rewrite Hopt. discriminate.
  - unfold mysqlBeginForeignScan. unfold_M. rewrite Hopt. discriminate.
Qed.

(** The block that executes the query, on a scan that has no result
    yet: when it returns, the statement was sent once, on the connection
    of the scan, and the state holds the result with the cursor on the
    first row and the number of its fields. *)
Lemma execute_query_first env b f b' :
  fdw_state (node b) = Some f ->
  result f = None ->
  execute_query env b = (Ok tt, b') ->
  ∃ h q nf rows,
    conn f = Some h
    ∧ query f = Some q
    ∧ env_result env q = Some (nf, rows)
    ∧ b' = mkBackend (<[h := Some q]> (conns b)) (next_conn b) (q :: sent b) (log b)
             (mkNode (rd_att (node b)) (ss_ScanTupleSlot (node b))
                     (Some (mkState (Some h) (Some (mkRes nf rows 0)) (Some q) nf))).
Proof.
  unfold execute_query. unfold_scan. unfold_M.
  destruct b as [c nx se lg [att slot fs]]. cbn [node fdw_state]. intros ->.
  destruct f as [c0 r0 q0 n0]. cbn [result]. intros ->. settle.
  destruct c0 as [h|]; settle; [|discriminate].
  destruct (c !! h) as [last|] eqn:Hh; settle; [|discriminate].
  destruct q0 as [q|]; settle; [|discriminate].
  destruct (env_executes env q); settle; [|rewrite Hh; settle; rewrite Hh; discriminate].
  destruct (env_result env q) as [[n rows]|] eqn:Hres; settle; [|discriminate].
  intros [= <-]. exists h, q, n, rows. by repeat split.
Qed.

(** Once the query was executed, the rest of the call is the call on
    the state the execution left. *)
Lemma iterate_after_execute env b bx f r :
  execute_query env b = (Ok tt, bx) ->
  fdw_state (node bx) = Some f ->
  result f = Some r ->
  rd_att (node bx) = rd_att (node b) ->
  mysqlIterateForeignScan env b = mysqlIterateForeignScan env bx.
Proof.
  intros Hexec Hf Hr Hatt. unfold mysqlIterateForeignScan.
  rewrite (bind_ok get _ b b b eq_refl), (bind_ok get _ bx bx bx eq_refl).
  rewrite (bind_ok _ _ _ _ _ Hexec).
  rewrite (bind_ok _ _ _ _ _ (execute_query_done env bx f r Hf Hr)).
  by rewrite Hatt.
Qed.

(** A scan from its beginning through at least one call. *)
Lemma scan_run env cat b b1 n slots b2 :
  mysqlBeginForeignScan env cat b = (Ok tt, b1) ->
  iterate_n env (S n) b1 = (Ok slots, b2) ->
  ∃ s eff nf rows,
    mysqlGetOptions cat = Ok s
    ∧ effective_query s = Some eff
    ∧ env_result env eff = Some (nf, rows)
    ∧ sent b1 = sent b
    ∧ sent b2 = eff :: sent b
    ∧ length slots = S n
    ∧ (∀ i slot, slots !! i = Some slot ->
         tts_isempty slot = bool_decide (length rows ≤ i)%nat
         ∧ (tts_isempty slot = false ->
            length (tts_values slot) = nf ∧ length (tts_isnull slot) = nf))
    ∧ fdw_state (node b2)
      = Some (mkState (Some (next_conn b))
                      (Some (mkRes nf rows (Nat.min (S n) (length rows)))) (Some eff) nf)
    ∧ conns b2 = <[next_conn b := Some eff]> (<[next_conn b := None]> (conns b)).
Proof.
  intros Hbegin Hit.
  destruct (begin_returned _ _ _ _ Hbegin) as (s & eff & Hopt & Heff & ->).
  exists s, eff.
  pose proof Hit as Hfirst. cbn [iterate_n] in Hfirst.
  apply bind_ok_inv in Hfirst as (slot0 & bm & Hone & _).
  unfold mysqlIterateForeignScan in Hone.
  rewrite (bind_ok get _ _ _ _ eq_refl) in Hone.
  apply bind_ok_inv in Hone as ([] & bx & Hexec & _).
  pose proof Hexec as Hexec'.
  eapply (execute_query_first env _ (mkState (Some (next_conn b)) None (Some eff) 0)) in Hexec'
    as (h & q & nf & rows & [= <-] & [= <-] & Hres & Hbx); [|reflexivity..].
  cbn [conns next_conn sent log node rd_att ss_ScanTupleSlot] in Hbx. subst bx.
  cbn [iterate_n] in Hit. unfold mbind at 1, M_bind at 1 in Hit.
  rewrite (iterate_after_execute env _ _
             (mkState (Some (next_conn b)) (Some (mkRes nf rows 0)) (Some eff) nf)
             (mkRes nf rows 0) Hexec eq_refl eq_refl eq_refl) in Hit.
  change (iterate_n env (S n)
            (mkBackend (<[next_conn b := Some eff]> (<[next_conn b := None]> (conns b)))
               (S (next_conn b)) (eff :: sent b) (log b)
               (mkNode (rd_att (node b)) (ss_ScanTupleSlot (node b))
                       (Some (mkState (Some (next_conn b)) (Some (mkRes nf rows 0))
                                      (Some eff) nf))))
          = (Ok slots, b2)) in Hit.
  apply (iterate_n_executed env (S n) _
           (mkState (Some (next_conn b)) (Some (mkRes nf rows 0)) (Some eff) nf)
           (mkRes nf rows 0)) in Hit
    as (Hlen & Hslots & Hst & Hc & _ & Hs & _); [|reflexivity..].
  exists nf, rows. cbn [conns sent] in Hc, Hs.
  split; [done|]. split; [done|]. split; [done|]. split; [done|]. split; [done|].
  split; [done|]. split; [exact Hslots|]. split; [|done].
  rewrite Hst. reflexivity.
Qed.

(** [mysqlEndForeignScan] on a scan whose connection, if it has one, is
    held. *)
Lemma end_run b f :
  fdw_state (node b) = Some f ->
  (∀ h, conn f = Some h -> is_Some (conns b !! h)) ->
  mysqlEndForeignScan b
  = (Ok tt,
     mkBackend (match conn f with Some h => delete h (conns b) | None => conns b end)
               (next_conn b) (sent b) (log b)
               (mkNode (rd_att (node b)) (ss_ScanTupleSlot (node b))
                       (Some (mkState None None None (num_fields f))))).
Proof.
  unfold mysqlEndForeignScan. unfold_scan. unfold_M.
  destruct b as [c nx se lg [att slot fs]]. cbn [node fdw_state conns]. intros -> Hlive.
  destruct f as [c0 r0 q0 n0]. cbn [conn] in Hlive. settle.
  destruct r0 as [r0|]; settle; destruct c0 as [h0|]; settle.
  all: try (destruct (Hlive h0 eq_refl) as [last Hlast]; rewrite Hlast; settle).
  all: destruct q0; settle; reflexivity.
Qed.

End LifeCycleFacts.

Import LifeCycleFacts.

(** X15: a scan that was begun and asked for rows, every call
    returning: nothing is sent when the scan begins; the calls send one
    statement in all, the query of the scan; the slots handed out hold
    the rows of its result in number, then are empty; and every tuple
    has as many cells as the result has fields. *)
Theorem scan_hands_out_the_result (env : Env) (cat : Catalog) (b b1 : Backend) (n : nat)
    (slots : list TupleTableSlot) (b2 : Backend) :
  mysqlBeginForeignScan env cat b = (Ok tt, b1) ->
  iterate_n env (S n) b1 = (Ok slots, b2) ->
  ∃ s eff nf rows,
    mysqlGetOptions cat = Ok s
    ∧ effective_query s = Some eff
    ∧ env_result env eff = Some (nf, rows)
    ∧ sent b1 = sent b
    ∧ sent b2 = eff :: sent b
    ∧ length slots = S n
    ∧ (∀ i slot, slots !! i = Some slot ->
         tts_isempty slot = bool_decide (length rows ≤ i)%nat
         ∧ (tts_isempty slot = false ->
            length (tts_values slot) = nf ∧ length (tts_isnull slot) = nf)).
Proof.
  intros Hbegin Hit.
  destruct (scan_run _ _ _ _ _ _ _ Hbegin Hit)
    as (s & eff & nf & rows & ? & ? & ? & ? & ? & ? & ? & _).
  exists s, eff, nf, rows. by repeat (split; [assumption|]).
Qed.

Lemma scan_hands_out_the_result_witness :
  ∃ s eff nf rows,
    mysqlGetOptions orders = Ok s
    ∧ effective_query s = Some eff
    ∧ env_result two_rows eff = Some (nf, rows)
    ∧ sent (begun two_rows) = sent (fresh [int4_column])
    ∧ sent (snd (iterate_n two_rows 3 (begun two_rows))) = eff :: sent (fresh [int4_column])
    ∧ length [mkSlot false [Some (DatumInt 7)] [Some false];
              mkSlot false [Some (DatumInt 8)] [Some false];
              mkSlot true [Some (DatumInt 8)] [Some false]] = 3%nat
    ∧ (∀ i slot,
         [mkSlot false [Some (DatumInt 7)] [Some false];
          mkSlot false [Some (DatumInt 8)] [Some false];
          mkSlot true [Some (DatumInt 8)] [Some false]] !! i = Some slot ->
         tts_isempty slot = bool_decide (length rows ≤ i)%nat
         ∧ (tts_isempty slot = false ->
            length (tts_values slot) = nf ∧ length (tts_isnull slot) = nf)).
Proof.
  apply (scan_hands_out_the_result two_rows orders (fresh [int4_column]) (begun two_rows) 2
           [mkSlot false [Some (DatumInt 7)] [Some false];
            mkSlot false [Some (DatumInt 8)] [Some false];
            mkSlot true [Some (DatumInt 8)] [Some false]]
           (snd (iterate_n two_rows 3 (begun two_rows))));
    vm_compute; reflexivity.
Defined.

(** X16: the end of a scan whose connection, if it has one, is held:
    the result is freed, the connection closed, the query released, and
    the three pointers are reset; nothing is sent or reported.  Ending
    the scan again then does nothing. *)
Theorem end_releases_everything (b : Backend) (f : MySQLFdwExecutionState) :
  fdw_state (node b) = Some f ->
  session_invariant b ->
  let b' := mkBackend (match conn f with Some h => delete h (conns b) | None => conns b end)
                      (next_conn b) (sent b) (log b)
                      (mkNode (rd_att (node b)) (ss_ScanTupleSlot (node b))
                              (Some (mkState None None None (num_fields f)))) in
  mysqlEndForeignScan b = (Ok tt, b')
  ∧ mysqlEndForeignScan b' = (Ok tt, b')
  ∧ session_invariant b'.
Proof.
  intros Hf Hinv b'.
  assert (mysqlEndForeignScan b = (Ok tt, b')) as Hend.
  { apply end_run; [done|]. intros h. by apply Hinv. }
  split; [done|]. split.
  - by apply (end_twice b b' Hinv).
  - by apply (end_session_invariant b (Ok tt) b' Hinv).
Qed.

Lemma end_releases_everything_witness :
  mysqlEndForeignScan after_first_row
  = (Ok tt,
     mkBackend (match conn (set_result (Some (mkRes 1 [[Some "7"]; [Some "8"]] 1)) executed_state)
                with
                | Some h => delete h (conns after_first_row)
                | None => conns after_first_row
                end)
               (next_conn after_first_row) (sent after_first_row) (log after_first_row)
               (mkNode (rd_att (node after_first_row))
                       (ss_ScanTupleSlot (node after_first_row))
                       (Some (mkState None None None 1))))
  ∧ conns (snd (mysqlEndForeignScan after_first_row)) = ∅.
Proof.
  destruct (end_releases_everything after_first_row
              (set_result (Some (mkRes 1 [[Some "7"]; [Some "8"]] 1)) executed_state))
    as (Hend & _ & _).
  - reflexivity.
  - intros f h. vm_compute. intros [= <-] [= <-]. eauto.
  - split; [exact Hend|]. vm_compute. reflexivity.
Defined.

(** X17: a whole scan, from its beginning through any number of calls
    that return to its end: the end returns, and the connection the
    scan opened is no longer held, so that the connections are those
    held before the scan; the end sends nothing. *)
Theorem scan_life_cycle (env : Env) (cat : Catalog) (b b1 : Backend) (n : nat)
    (slots : list TupleTableSlot) (b2 : Backend) :
  conns b !! next_conn b = None ->
  mysqlBeginForeignScan env cat b = (Ok tt, b1) ->
  iterate_n env n b1 = (Ok slots, b2) ->
  ∃ b3, mysqlEndForeignScan b2 = (Ok tt, b3)
        ∧ conns b3 = conns b
        ∧ sent b3 = sent b2
        ∧ (fdw_state (node b3) ≫= conn) = None
        ∧ (fdw_state (node b3) ≫= result) = None
        ∧ (fdw_state (node b3) ≫= query) = None.
Proof.
  intros Hfresh Hbegin Hit. destruct n as [|n].
  - injection Hit as _ <-.
    destruct (begin_returned _ _ _ _ Hbegin) as (s & eff & _ & _ & ->).
    erewrite (end_run _ (mkState (Some (next_conn b)) None (Some eff) 0));
      [|reflexivity|cbn; intros h [= <-]; by rewrite lookup_insert_eq].
    eexists. split; [reflexivity|]. cbn. by rewrite delete_insert_id.
  - destruct (scan_run _ _ _ _ _ _ _ Hbegin Hit)
      as (s & eff & nf & rows & _ & _ & _ & _ & _ & _ & _ & Hst & Hc).
    rewrite (end_run _ _ Hst);
      [|cbn; intros h [= <-]; rewrite Hc; by rewrite lookup_insert_eq].
    eexists. split; [reflexivity|]. cbn. rewrite Hc.
    by rewrite delete_insert_eq, delete_insert_id.
Qed.

Lemma scan_life_cycle_witness :
  ∃ b3, mysqlEndForeignScan (snd (iterate_n two_rows 3 (begun two_rows))) = (Ok tt, b3)
        ∧ conns b3 = conns (fresh [int4_column])
        ∧ sent b3 = sent (snd (iterate_n two_rows 3 (begun two_rows)))
        ∧ (fdw_state (node b3) ≫= conn) = None
        ∧ (fdw_state (node b3) ≫= result) = None
        ∧ (fdw_state (node b3) ≫= query) = None.
Proof.
  apply (scan_life_cycle two_rows orders (fresh [int4_column]) (begun two_rows) 3
           [mkSlot false [Some (DatumInt 7)] [Some false];
            mkSlot false [Some (DatumInt 8)] [Some false];
            mkSlot true [Some (DatumInt 8)] [Some false]]
           (snd (iterate_n two_rows 3 (begun two_rows))));
    vm_compute; reflexivity.
Defined.

Section PlanSession.
Context `{Double}.

Lemma sum_rows_raises_nothing rows acc e : sum_rows rows acc ≠ Raise e.
Proof.
  revert acc. induction rows as [|row rows IH]; intros acc; cbn; [done|].
  destruct (row !! 8%nat) as [[f|]|]; [apply IH|done..].
Qed.

(** X18: a plan invocation against a server that accepts the
    connection, started with a connection object of its own: unless the
    probe steps outside its rows, the invocation leaves, by return or by
    error, with that object closed, and the scan node and the
    diagnostics as they were. *)
Theorem plan_closes_accepted_connection (env : Env) (cat : Catalog) (b : Backend) (s : svr)
    (r : outcome FdwPlan) (b' : Backend) :
  mysqlGetOptions cat = Ok s ->
  env_accepts env s = true ->
  conns b !! next_conn b = None ->
  mysqlPlanForeignScan env cat b = (r, b') ->
  (∀ ft, r ≠ Fault ft) ->
  conns b' = conns b ∧ node b' = node b ∧ log b' = log b.
Proof.
  intros Hopt Hacc Hfresh.
  destruct (mysqlGetOptions_address _ _ Hopt) as [address Haddr].
  destruct (mysqlGetOptions_effective _ _ Hopt) as [eff Heff].
  unfold mysqlPlanForeignScan. unfold_M.
  rewrite Hopt, Haddr.
  destruct (env_alloc env); settle; [|by intros [= <- <-]].
  rewrite Hacc. settle.
  rewrite (explain_query_effective _ _ _ Heff). settle.
  destruct (env_executes env _); settle.
  - destruct (env_result env _) as [[n rows]|]; settle.
    + cbn [res_cursor res_rows].
      destruct (sum_rows _ _) as [total|e|ft] eqn:Hsum; settle; intros [= <- <-] Hr.
      * cbn. by rewrite !delete_insert_eq, delete_id.
      * by destruct (sum_rows_raises_nothing _ _ _ Hsum).
      * by destruct (Hr ft).
    + intros [= <- <-] _. cbn. by rewrite !delete_insert_eq, delete_id.
  - intros [= <- <-] _. cbn. by rewrite !delete_insert_eq, delete_id.
Qed.

End PlanSession.

Lemma plan_closes_accepted_connection_witness :
  conns (snd (mysqlPlanForeignScan (H := integral) (server true false None) orders (fresh [])))
  = conns (fresh [])
  ∧ node (snd (mysqlPlanForeignScan (H := integral) (server true false None) orders (fresh [])))
    = node (fresh [])
  ∧ log (snd (mysqlPlanForeignScan (H := integral) (server true false None) orders (fresh [])))
    = log (fresh []).
Proof.
  apply (plan_closes_accepted_connection (H := integral) (server true false None) orders
           (fresh []) (mkSvr (Some "127.0.0.1") 3306 None None None None (Some "orders"))
           (Raise (query_failed "server said no"))).
  - reflexivity.
  - reflexivity.
  - reflexivity.
  - reflexivity.
  - intros ft. discriminate.
Defined.

Module ContextFacts.

(** No option name is valid for two catalogs. *)
Lemma option_valid_in_one_catalog name c1 c2 :
  mysqlIsValidOption name c1 = true -> mysqlIsValidOption name c2 = true -> c1 = c2.
Proof.
  unfold mysqlIsValidOption, valid_options. cbn [existsb optcontext optname].
  rewrite !orb_true_iff, !andb_true_iff, !Z.eqb_eq, !String.eqb_eq.
  intros H1 H2.
  repeat match goal with
         | H : _ ∨ _ |- _ => destruct H
         | H : _ ∧ _ |- _ => destruct H
         | H : False |- _ => destruct H
         end; congruence.
Qed.

End ContextFacts.

(** X19: the table of valid options gives every name one catalog, so a
    list that is not empty passes the validator for one catalog at
    most: called for another, the validator raises the invalid-option
    error for the first entry. *)
Theorem validator_accepts_for_one_catalog (c1 c2 : Oid) (d : DefElem) (rest : list DefElem) :
  mysql_fdw_validator (d :: rest) c1 = Ok tt ->
  c1 ≠ c2 ->
  mysql_fdw_validator (d :: rest) c2 = Raise (invalid_option d c2).
Proof.
  intros Hok Hne. apply validator_ok in Hok as [s Hs].
  apply validate_options_valid in Hs. apply Forall_cons in Hs as [Hd _].
  apply (validator_first_invalid c2 [] rest d); [reflexivity|].
  destruct (mysqlIsValidOption (defname d) c2) eqn:Hd2; [|done].
  by destruct (Hne (ContextFacts.option_valid_in_one_catalog _ _ _ Hd Hd2)).
Qed.

Lemma validator_accepts_for_one_catalog_witness :
  mysql_fdw_validator (mkDef "address" "db.example.org" :: [mkDef "port" "3307"])
                      ForeignTableRelationId
  = Raise (invalid_option (mkDef "address" "db.example.org") ForeignTableRelationId).
Proof.
  apply (validator_accepts_for_one_catalog ForeignServerRelationId ForeignTableRelationId
           (mkDef "address" "db.example.org") [mkDef "port" "3307"]).
  - reflexivity.
  - discriminate.
Defined.

Module RowCellFacts.

Lemma row_cells_no_field env attrs : row_cells env attrs [] = inr [].
Proof. by destruct attrs. Qed.

Lemma take_insert_next {A} (l : list A) x v :
  (x < length l)%nat -> take (S x) (<[x := v]> l) = (take x l ++ [v])%list.
Proof.
  intros Hx. rewrite insert_take_drop by done.
  assert (length (take x l) = x) as Hlen by (rewrite length_take; lia).
  pose proof (PadFacts.take_past_middle (take x l) (drop (S x) l) v) as Ht.
  by rewrite Hlen in Ht.
Qed.

(** The conversion of one field into a live column, by its cell. *)
Lemma convert_field_cell env attrs row x y dvalues nulls b a field :
  attrs !! y = Some a ->
  attisdropped a = false ->
  row !! x = Some field ->
  (y < length dvalues)%nat ->
  (y < length nulls)%nat ->
  ∃ l, convert_field env attrs row (mysql_fetch_lengths row) x y dvalues nulls b
       = (match cell_of env a field with
          | inr c => Ok (y, <[y := Some (fst c)]> dvalues, <[y := Some (snd c)]> nulls)
          | inl e => Raise e
          end, set_log l b).
Proof.
  intros Ha Hlive Hrow Hdv Hnl.
  rewrite (FieldFacts.convert_field_on_live env attrs row x y dvalues nulls b a field)
    by done.
  assert (set_log (log b) b = b) as Hb by by destruct b.
  unfold cell_of, null_cell, parsed_cell.
  destruct field as [bytes|]; [|exists (log b); by rewrite Hb].
  destruct (String.length bytes =? 0)%nat.
  - exists (log b). rewrite Hb. by destruct (attinfunc a "" (atttypmod a)).
  - destruct (Ascii.eqb (typcategory a) TYPCATEGORY_STRING
              && negb (pg_verifymbstr env bytes (String.length bytes))).
    + by eexists.
    + exists (log b). rewrite Hb. by destruct (attinfunc a (c_str bytes) (atttypmod a)).
Qed.

(** The loop over the fields, on a descriptor without dropped columns
    that has a column for every field: the cells from [x] on are those
    of the fields from [x] on, in their order, up to the first error. *)
Lemma for_fields_live env attrs row :
  Forall (fun a => attisdropped a = false) attrs ->
  (length row ≤ length attrs)%nat ->
  ∀ todo x dvalues nulls b,
    (x + todo)%nat = length row ->
    length dvalues = length row ->
    length nulls = length row ->
    fst (for_fields env attrs row (mysql_fetch_lengths row) todo x x dvalues nulls b)
    = match row_cells env (drop x attrs) (drop x row) with
      | inr cs => Ok ((take x dvalues ++ ((fun c => Some (fst c)) <$> cs))%list,
                      (take x nulls ++ ((fun c => Some (snd c)) <$> cs))%list)
      | inl e => Raise e
      end.
Proof.
  intros Hlive Hattrs.
  induction todo as [|todo IH]; intros x dvalues nulls b Hx Hdv Hnl.
  - rewrite (drop_ge row) by lia. rewrite row_cells_no_field. cbn.
    rewrite !app_nil_r, !take_ge by lia. reflexivity.
  - destruct (lookup_lt_is_Some_2 attrs x) as [a Ha]; [lia|].
    destruct (lookup_lt_is_Some_2 row x) as [field Hfield]; [lia|].
    rewrite (drop_S _ _ _ Ha), (drop_S _ _ _ Hfield).
    cbn [for_fields row_cells].
    destruct (convert_field_cell env attrs row x x dvalues nulls b a field Ha) as [l Hc];
      [exact (proj1 (Forall_lookup _ _) Hlive x a Ha)|done|lia|lia|].
    unfold mbind, M_bind. rewrite Hc.
    destruct (cell_of env a field) as [e|[d isnull]]; [reflexivity|].
    cbn [fst snd].
    rewrite IH by (rewrite ?length_insert; lia).
    rewrite !take_insert_next by lia.
    destruct (row_cells env (drop (S x) attrs) (drop (S x) row)) as [e|cs]; [reflexivity|].
    cbn [fmap list_fmap fst snd]. by rewrite <- !app_assoc.
Qed.

End RowCellFacts.

(** X20: a call on a scan whose query was executed, with a row under
    the cursor that has as many fields as the result, over a relation
    without dropped columns that has a column for every field: the call
    hands out the tuple whose cells are those of the fields, column by
    column in their order, or raises the error of the first input
    function that fails; it steps outside no array. *)
Theorem iterate_converts_row (env : Env) (b : Backend) (f : MySQLFdwExecutionState)
    (r : MYSQL_RES) (row : MYSQL_ROW) :
  fdw_state (node b) = Some f ->
  result f = Some r ->
  res_rows r !! res_cursor r = Some row ->
  Forall (fun a => attisdropped a = false) (rd_att (node b)) ->
  num_fields f = length row ->
  (length row ≤ length (rd_att (node b)))%nat ->
  fst (mysqlIterateForeignScan env b) = tuple_of_cells (row_cells env (rd_att (node b)) row).
Proof.
  intros Hf Hr Hrow Hlive Hn Hattrs.
  destruct (iterate_row_run env b f r row Hf Hr Hrow) as [l ->]. cbn [fst].
  unfold convert_row. rewrite Hn.
  rewrite (RowCellFacts.for_fields_live env _ row Hlive Hattrs (length row) 0)
    by (rewrite ?length_replicate; lia).
  rewrite !drop_0. unfold tuple_of_cells.
  by destruct (row_cells env (rd_att (node b)) row).
Qed.

Lemma iterate_converts_row_witness :
  fst (mysqlIterateForeignScan two_rows executed)
  = tuple_of_cells (row_cells two_rows (rd_att (node executed)) [Some "7"]).
Proof.
  apply (iterate_converts_row two_rows executed executed_state
           (mkRes 1 [[Some "7"]; [Some "8"]] 0) [Some "7"]);
    [reflexivity | reflexivity | reflexivity
    | vm_compute; by repeat constructor | reflexivity | vm_compute; lia].
Defined.
